(** * A shallow embedding of the Python shell [main.py]

    The shell reads a line, splits it with [shlex.split], extracts the
    redirection operators, and dispatches the remaining tokens to a builtin
    or to an external program.  The embedding follows the source function by
    function ([parse_programs_in_path], [main], [handle_all], [type_command],
    [cd]): exceptions are values of [exn], effects are threaded through a
    small state-and-exception monad over a [World], and the operating system
    is an interface ([OS]) of which a small instance is given for running
    the code on concrete lines.  The readline completion ([complete],
    [display_matches]) takes no part in the handling of a line; it is
    embedded on its own, after the vocabulary of the statements. *)

From stdpp Require Import base option list strings gmap sorting.
From Stdlib Require Import Ascii String.

Local Open Scope string_scope.

(** ** Python exceptions raised by the code and by the library calls it makes *)

(** The [OSError] subclasses that matter to the code: [FileNotFoundError] is
    the only one an [except] clause of the program names. *)
Inductive oserror : Type :=
  | FileNotFoundError
  | PermissionError
  | NotADirectoryError
  | IsADirectoryError.

Inductive exn : Type :=
  | ValueError (msg : string)
  | IndexError
  | OSError (e : oserror)
  | EOFError
  | SystemExit (code : nat).

Inductive result (A : Type) : Type :=
  | Ok (a : A)
  | Raise (e : exn).
Arguments Ok {A} a.
Arguments Raise {A} e.

(** ** Strings and lists as the code uses them *)

(** [" ".join(l)] is [String.concat " " l]. *)
Definition join (sep : string) (l : list string) : string := String.concat sep l.

(** [s.startswith(p)]. *)
Definition startswith (p s : string) : bool := String.prefix p s.

(** [s.replace(old, new)] for a one-character [old] (the code only calls it
    with ["~"]): every occurrence of the character is replaced, left to
    right, and the inserted text is not scanned again. *)
Fixpoint replace (old : ascii) (new : string) (s : string) : string :=
  match s with
  | EmptyString => EmptyString
  | String c s' =>
      if Ascii.eqb c old then new +:+ replace old new s'
      else String c (replace old new s')
  end.

(** [s.split(sep)] for a one-character separator: always at least one
    field, empty fields are kept. *)
Fixpoint split (sep : ascii) (s : string) : list string :=
  match s with
  | EmptyString => [EmptyString]
  | String c s' =>
      if Ascii.eqb c sep then EmptyString :: split sep s'
      else match split sep s' with
           | f :: fs => String c f :: fs
           | [] => [String c EmptyString]
           end
  end.

(** [l.index(x)]: position of the first occurrence.  The code calls it only
    under [x in l]; [None] stands for the [ValueError] of an absent item. *)
Fixpoint index (x : string) (l : list string) : option nat :=
  match l with
  | [] => None
  | y :: l' => if decide (y = x) then Some 0 else S <$> index x l'
  end.

(** [x in l] on a list of strings. *)
Definition contains (x : string) (l : list string) : bool := bool_decide (x ∈ l).

(** ** [shlex.split(s)] (library): POSIX mode, [whitespace_split], no commenters

    The state machine of [shlex.read_token], run over the whole line.  The
    automaton state of the library is a character: [' '] between words, ['a']
    inside a word, a quote character inside a quotation, the escape character
    after a backslash (with [escapedstate] telling where to go back). *)
Inductive lex_state : Type :=
  | InWhite
  | InWord
  | InQuote (q : ascii)
  | InEscape (escapedstate : lex_state).

Record lexer : Type := Lexer {
  lx_state : lex_state;
  lx_token : string;      (* self.token *)
  lx_quoted : bool;       (* the local [quoted] of read_token *)
  lx_tokens : list string (* tokens returned so far *)
}.

Definition is_whitespace (c : ascii) : bool :=
  Ascii.eqb c " " || Ascii.eqb c "009" || Ascii.eqb c "013" || Ascii.eqb c "010".
Definition is_quote (c : ascii) : bool := Ascii.eqb c "'" || Ascii.eqb c "034".
Definition is_escape (c : ascii) : bool := Ascii.eqb c "\".
Definition is_escapedquote (c : ascii) : bool := Ascii.eqb c "034".

Definition push (c : ascii) (t : string) : string := t +:+ String c EmptyString.

(** [break] out of the loop of [read_token]: the token is returned unless it
    is empty and was not quoted; the next call starts with a fresh token. *)
Definition emit (st : lex_state) (lx : lexer) : lexer :=
  if negb (String.eqb (lx_token lx) EmptyString) || lx_quoted lx
  then Lexer st EmptyString false (lx_tokens lx ++ [lx_token lx])
  else Lexer st EmptyString false (lx_tokens lx).

Definition lex_step (c : ascii) (lx : lexer) : lexer :=
  let '(Lexer st tok quoted toks) := lx in
  match st with
  | InWhite =>
      if is_whitespace c then
        (if negb (String.eqb tok EmptyString) || quoted then emit InWhite lx else lx)
      else if is_escape c then Lexer (InEscape InWord) tok quoted toks
      else if is_quote c then Lexer (InQuote c) tok quoted toks
      else Lexer InWord (String c EmptyString) quoted toks
  | InQuote q =>
      if Ascii.eqb c q then Lexer InWord tok true toks
      else if is_escape c && is_escapedquote q
           then Lexer (InEscape (InQuote q)) tok true toks
      else Lexer (InQuote q) (push c tok) true toks
  | InEscape escapedstate =>
      let tok' :=
        match escapedstate with
        | InQuote q =>
            if negb (is_escape c) && negb (Ascii.eqb c q)
            then push "\" tok else tok
        | _ => tok
        end in
      Lexer escapedstate (push c tok') quoted toks
  | InWord =>
      if is_whitespace c then
        (if negb (String.eqb tok EmptyString) || quoted then emit InWhite lx
         else Lexer InWhite tok quoted toks)
      else if is_quote c then Lexer (InQuote c) tok quoted toks
      else if is_escape c then Lexer (InEscape InWord) tok quoted toks
      else Lexer InWord (push c tok) quoted toks
  end.

Fixpoint lex_run (s : string) (lx : lexer) : lexer :=
  match s with
  | EmptyString => lx
  | String c s' => lex_run s' (lex_step c lx)
  end.

(** End of input: a word in progress is returned, an open quotation or a
    dangling backslash raises [ValueError]. *)
Definition lex_eof (lx : lexer) : result (list string) :=
  match lx_state lx with
  | InWhite | InWord => Ok (lx_tokens (emit InWhite lx))
  | InQuote _ => Raise (ValueError "No closing quotation")
  | InEscape _ => Raise (ValueError "No escaped character")
  end.

Definition lex_init : lexer := Lexer InWhite EmptyString false [].

Definition shlex_split (s : string) : result (list string) :=
  lex_eof (lex_run s lex_init).

(** ** The state-and-exception monad

    A computation takes the state, returns a value or raises, and leaves a
    state behind in both cases: what was written or opened before an
    exception stays written and opened. *)
Definition M (S A : Type) : Type := S → result A * S.

#[global] Instance M_ret {S} : MRet (M S) := λ A a s, (Ok a, s).
#[global] Instance M_bind {S} : MBind (M S) := λ A B f m s,
  match m s with
  | (Ok a, s') => f a s'
  | (Raise e, s') => (Raise e, s')
  end.

Definition raise {S A} (e : exn) : M S A := λ s, (Raise e, s).
Definition get {S} : M S S := λ s, (Ok s, s).
Definition modify {S} (f : S → S) : M S unit := λ s, (Ok tt, f s).

(** [try: body finally: fin].  The [finally] block runs on every exit of the
    body; the body's exception (if any) goes on afterwards, unless the block
    itself raises. *)
Definition try_finally {S A} (body : M S A) (fin : M S unit) : M S A := λ s,
  let '(r, s') := body s in
  match fin s' with
  | (Ok _, s'') => (r, s'')
  | (Raise e, s'') => (Raise e, s'')
  end.

(** [try: body except FileNotFoundError: handler]. *)
Definition try_except_FileNotFoundError {S A} (body handler : M S A) : M S A := λ s,
  match body s with
  | (Raise (OSError FileNotFoundError), s') => handler s'
  | other => other
  end.

(** Run a computation on the second component of a pair state. *)
Definition lift_snd {F S A} (m : M S A) : M (F * S) A := λ '(f, s),
  let '(r, s') := m s in (r, (f, s')).

(** ** The operating system, as far as the code calls it *)

Inductive open_mode : Type := ModeW | ModeA.

(** Every call takes the file system and the current directory.  [os_open]
    creates or truncates, so it may change the file system; a child process
    ([os_popen_wait]: [subprocess.Popen(argv)] then [wait()]) may change it
    too, and hands back what it wrote to its standard output and error.
    Child processes are taken not to read the shell's input. *)
Class OS : Type := {
  FS : Type;
  os_open : FS → string → string → open_mode → oserror + FS;
  os_iterdir : FS → string → string → oserror + list string;
  os_is_file : FS → string → string → bool;
  os_access_X_OK : FS → string → string → bool;
  os_exists : FS → string → string → bool;
  os_chdir : FS → string → string → oserror + string;
  os_popen_wait : FS → string → list string → oserror + (FS * string * string)
}.

(** A file object returned by [open]. *)
Record file : Type := File {
  file_name : string;
  file_mode : open_mode;
  file_data : string;   (* what was written through this object *)
  file_closed : bool
}.

(** [sys.stdout], [sys.stderr], or the n-th file object created by [open]. *)
Inductive TextIO : Type :=
  | sys_stdout
  | sys_stderr
  | file_object (n : nat).

Section Shell.
Context `{os : OS}.

Record World : Type := mkWorld {
  w_fs : FS;
  w_cwd : string;
  w_environ : gmap string string;
  w_stdout : string;
  w_stderr : string;
  w_files : list file
}.

Definition set_stdout (f : string → string) (w : World) : World :=
  mkWorld (w_fs w) (w_cwd w) (w_environ w) (f (w_stdout w)) (w_stderr w) (w_files w).
Definition set_stderr (f : string → string) (w : World) : World :=
  mkWorld (w_fs w) (w_cwd w) (w_environ w) (w_stdout w) (f (w_stderr w)) (w_files w).
Definition set_files (f : list file → list file) (w : World) : World :=
  mkWorld (w_fs w) (w_cwd w) (w_environ w) (w_stdout w) (w_stderr w) (f (w_files w)).
Definition set_fs (fs : FS) (w : World) : World :=
  mkWorld fs (w_cwd w) (w_environ w) (w_stdout w) (w_stderr w) (w_files w).
Definition set_cwd (d : string) (w : World) : World :=
  mkWorld (w_fs w) d (w_environ w) (w_stdout w) (w_stderr w) (w_files w).

Definition file_write (s : string) (f : file) : file :=
  File (file_name f) (file_mode f) (file_data f +:+ s) (file_closed f).
Definition file_close (f : file) : file :=
  File (file_name f) (file_mode f) (file_data f) true.

(** [stream.write(s)]; writing through a closed file object raises. *)
Definition write (stream : TextIO) (s : string) : M World unit := λ w,
  match stream with
  | sys_stdout => (Ok tt, set_stdout (λ o, o +:+ s) w)
  | sys_stderr => (Ok tt, set_stderr (λ o, o +:+ s) w)
  | file_object n =>
      match w_files w !! n with
      | Some f =>
          if file_closed f then (Raise (ValueError "I/O operation on closed file."), w)
          else (Ok tt, set_files (alter (file_write s) n) w)
      | None => (Raise (ValueError "I/O operation on closed file."), w)
      end
  end.

(** [open(name, mode)]: a new file object, or the [OSError] of the system. *)
Definition open (name : string) (mode : open_mode) : M World TextIO := λ w,
  match os_open (w_fs w) (w_cwd w) name mode with
  | inl e => (Raise (OSError e), w)
  | inr fs' =>
      (Ok (file_object (List.length (w_files w))),
       set_files (λ fl, (fl ++ [File name mode EmptyString false])%list) (set_fs fs' w))
  end.

(** [stream.close()].  The code closes only what it opened itself. *)
Definition close (stream : TextIO) : M World unit :=
  match stream with
  | file_object n => modify (set_files (alter file_close n))
  | _ => mret tt
  end.

(** [os.getenv(name)]. *)
Definition getenv (name : string) : M World (option string) := λ w,
  (Ok (w_environ w !! name), w).

(** [os.chdir(path)] and [os.getcwd()]. *)
Definition chdir (path : string) : M World unit := λ w,
  match os_chdir (w_fs w) (w_cwd w) path with
  | inl e => (Raise (OSError e), w)
  | inr d => (Ok tt, set_cwd d w)
  end.

Definition getcwd : M World string := λ w, (Ok (w_cwd w), w).

(** [subprocess.Popen(argv, stdout=out, stderr=err)] followed by [wait()]:
    what the child writes lands in the two streams it was given. *)
Definition popen_wait (argv : list string) (out err : TextIO) : M World unit := λ w,
  match os_popen_wait (w_fs w) (w_cwd w) argv with
  | inl e => (Raise (OSError e), w)
  | inr (fs', child_out, child_err) =>
      (write out child_out ;; write err child_err) (set_fs fs' w)
  end.

(** ** The program *)

Definition nl : string := String "010" EmptyString.

Definition SHELL_BUILTINS : list string := ["echo"; "exit"; "type"; "pwd"; "cd"].

(** [pathlib.Path(dir) / name], printed, for a [dir] written without a
    trailing slash (the clean-up that [pathlib] does on other spellings is
    not reproduced; only [type] prints these paths). *)
Definition joinpath (dir name : string) : string :=
  if String.eqb dir EmptyString then name else dir +:+ "/" +:+ name.

(** The body of the inner [for entry in ...] loop (lines 24-25). *)
Definition add_entry (fs : FS) (cwd dir : string)
    (programs : gmap string string) (name : string) : gmap string string :=
  let entry := joinpath dir name in
  if os_is_file fs cwd entry && os_access_X_OK fs cwd entry
  then <[name := entry]> programs else programs.

(** Lines 23-25: list the directory (which may raise) and visit its entries. *)
Definition scan_dir (fs : FS) (cwd dir : string) : M (gmap string string) unit :=
  λ programs,
  match os_iterdir fs cwd dir with
  | inl e => (Raise (OSError e), programs)
  | inr entries => (Ok tt, foldl (add_entry fs cwd dir) programs entries)
  end.

(** Lines 21-27: the loop over the directories.  [continue] in the handler
    goes on with the next directory. *)
Fixpoint scan_dirs (fs : FS) (cwd : string) (dirs : list string)
    : M (gmap string string) unit :=
  match dirs with
  | [] => mret tt
  | dir :: dirs' =>
      try_except_FileNotFoundError (scan_dir fs cwd dir) (mret tt) ;;
      scan_dirs fs cwd dirs'
  end.

(** [os.pathsep] is [":"]; the dictionary [programs] is the state. *)
Definition parse_programs_in_path (fs : FS) (cwd : string) (path : string)
    : M (gmap string string) unit :=
  scan_dirs fs cwd (split ":" path).

(** Line 29: the module-level call that fills [PROGRAMS_IN_PATH] at start-up,
    from [os.getenv("PATH", "")]. *)
Definition startup (w : World) : result unit * gmap string string :=
  parse_programs_in_path (w_fs w) (w_cwd w) (default EmptyString (w_environ w !! "PATH")) ∅.

Section Commands.
Variable PROGRAMS_IN_PATH : gmap string string.

Definition type_command (command : string) (out err : TextIO) : M World unit :=
  if contains command SHELL_BUILTINS then
    write out (command +:+ " is a shell builtin" +:+ nl)
  else match PROGRAMS_IN_PATH !! command with
       | Some p => write out (command +:+ " is " +:+ p +:+ nl)
       | None => write out (command +:+ ": not found" +:+ nl)
       end.

(** [x or d] on an optional string: [None] and the empty string are falsy. *)
Definition or_default (x : option string) (d : string) : string :=
  match x with
  | Some s => if String.eqb s EmptyString then d else s
  | None => d
  end.

Definition cd (path : string) (out err : TextIO) : M World unit :=
  path ← (if startswith "~" path then
             home ← getenv "HOME";
             mret (replace "~" (or_default home "/root") path)
           else mret path);
  w ← get;
  if negb (os_exists (w_fs w) (w_cwd w) path) then
    write out ("cd: " +:+ path +:+ ": No such file or directory" +:+ nl)
  else chdir path.

(** The last two cases of the [match] of [handle_all]: a program of the
    path, or the catch-all [case command]. *)
Definition external_or_unknown (cmds : list string) (out err : TextIO) : M World unit :=
  match cmds with
  | cmd :: args =>
      if bool_decide (is_Some (PROGRAMS_IN_PATH !! cmd)) then popen_wait (cmd :: args) out err
      else write out (join " " cmds +:+ ": command not found" +:+ nl)
  | [] => write out (join " " cmds +:+ ": command not found" +:+ nl)
  end.

(** The [match cmds] of [handle_all]; the cases are tried in the order of
    the source, and a first word that fits no builtin pattern falls
    through to the last two cases. *)
Definition handle_all (cmds : list string) (out err : TextIO) : M World unit :=
  match cmds with
  | c :: s =>
      if String.eqb c "echo" then write out (join " " s +:+ nl)
      else match s with
           | [a] =>
               if String.eqb c "type" then type_command a out err
               else if String.eqb c "exit" && String.eqb a "0" then raise (SystemExit 0)
               else if String.eqb c "cd" then cd a out err
               else external_or_unknown cmds out err
           | [] =>
               if String.eqb c "pwd" then (d ← getcwd; write out (d +:+ nl))
               else external_or_unknown cmds out err
           | _ => external_or_unknown cmds out err
           end
  | [] => external_or_unknown cmds out err
  end.

(** The local variables of one iteration of [main]. *)
Record Frame : Type := mkFrame {
  cmds : list string;
  out : TextIO;
  err : TextIO;
  close_out : bool;
  close_err : bool
}.

Inductive channel : Type := Out | Err.

Definition rebind (ch : channel) (f : TextIO) (cmds' : list string) (fr : Frame) : Frame :=
  match ch with
  | Out => mkFrame cmds' f (err fr) true (close_err fr)
  | Err => mkFrame cmds' (out fr) f (close_out fr) true
  end.

(** The four statements under each [if OP in cmds] of [main]:
      [out_index = cmds.index(OP)]
      [out = open(cmds[out_index + 1], MODE)]  (or [err = ...])
      [close_out = True]                       (or [close_err])
      [cmds = cmds[:out_index] + cmds[out_index + 2 :]]
    The subscript is evaluated before [open] is called. *)
Definition redirect (op : string) (mode : open_mode) (ch : channel)
    : M (Frame * World) unit :=
  st ← get;
  match index op (cmds st.1) with
  | None => raise (ValueError "list.index(x): x not in list")
  | Some out_index =>
      match cmds st.1 !! (out_index + 1) with
      | None => raise IndexError
      | Some name =>
          f ← lift_snd (open name mode);
          modify (λ '(fr, w),
            (rebind ch f (take out_index (cmds fr) ++ drop (out_index + 2) (cmds fr)) fr, w))
      end
  end.

(** [if A in cmds: ... elif B in cmds: ...] *)
Definition if_elif (a b : string) (mode : open_mode) (ch : channel)
    : M (Frame * World) unit :=
  st ← get;
  if contains a (cmds st.1) then redirect a mode ch
  else if contains b (cmds st.1) then redirect b mode ch
  else mret tt.

(** [if A in cmds: ...] *)
Definition if_only (a : string) (mode : open_mode) (ch : channel)
    : M (Frame * World) unit :=
  st ← get;
  if contains a (cmds st.1) then redirect a mode ch else mret tt.

(** Lines 56-85. *)
Definition extract_redirections : M (Frame * World) unit :=
  if_elif ">" "1>" ModeW Out ;;
  if_only "2>" ModeW Err ;;
  if_elif ">>" "1>>" ModeA Out ;;
  if_only "2>>" ModeA Err.

(** Lines 55-86, the body of the [try]. *)
Definition try_body : M (Frame * World) unit :=
  extract_redirections ;;
  st ← get;
  lift_snd (handle_all (cmds st.1) (out st.1) (err st.1)).

(** Lines 87-91, the [finally] block. *)
Definition finally_block : M (Frame * World) unit :=
  st ← get;
  (if close_out st.1 then lift_snd (close (out st.1)) else mret tt) ;;
  st ← get;
  (if close_err st.1 then lift_snd (close (err st.1)) else mret tt).

Definition of_result {S A} (r : result A) : M S A := λ s, (r, s).

(** Run a block with its own local variables. *)
Definition with_frame {A} (fr : Frame) (m : M (Frame * World) A) : M World A := λ w,
  let '(r, st) := m (fr, w) in (r, st.2).

(** Lines 52-91: what one turn of the loop does with the line read. *)
Definition handle_line (line : string) : M World unit :=
  cmds ← of_result (shlex_split line);
  with_frame (mkFrame cmds sys_stdout sys_stderr false false)
    (try_finally try_body finally_block).

(** [main]: [while True] never falls out of the loop, so the function ends
    only by an exception; [stdin] is the lines that [input()] will return,
    [EOFError] after the last. *)
Fixpoint main (stdin : list string) : M World Empty_set :=
  write sys_stdout "$ " ;;
  match stdin with
  | [] => raise EOFError
  | line :: stdin' => handle_line line ;; main stdin'
  end.

End Commands.
End Shell.

(** ** A small operating system to run the code on

    Paths are absolute strings; a node is a directory (listable or not) or a
    regular file (executable or not).  Programs found on the path print
    nothing. *)
Module Toy.

Inductive node : Type :=
  | Dir (listable : bool)
  | Reg (executable : bool).

Definition fs : Type := list (string * node).

Fixpoint lookup (p : string) (t : fs) : option node :=
  match t with
  | [] => None
  | (q, n) :: t' => if String.eqb q p then Some n else lookup p t'
  end.

Definition resolve (cwd p : string) : string :=
  if startswith "/" p then p
  else if String.eqb p EmptyString then cwd
  else if String.eqb cwd "/" then "/" +:+ p
  else cwd +:+ "/" +:+ p.

Definition dirname (p : string) : string :=
  match join "/" (removelast (split "/" p)) with
  | EmptyString => "/"
  | d => d
  end.

Definition basename (p : string) : string :=
  List.last (split "/" p) EmptyString.

Definition toy_open (t : fs) (cwd p : string) (m : open_mode) : oserror + fs :=
  let q := resolve cwd p in
  match lookup q t with
  | Some (Dir _) => inl IsADirectoryError
  | Some (Reg _) => inr t
  | None =>
      match lookup (dirname q) t with
      | Some (Dir _) => inr ((q, Reg false) :: t)
      | Some (Reg _) => inl NotADirectoryError
      | None => inl FileNotFoundError
      end
  end.

Definition toy_iterdir (t : fs) (cwd d : string) : oserror + list string :=
  let q := resolve cwd d in
  match lookup q t with
  | None => inl FileNotFoundError
  | Some (Reg _) => inl NotADirectoryError
  | Some (Dir false) => inl PermissionError
  | Some (Dir true) =>
      inr (basename <$> filter (λ p, dirname p = q ∧ p ≠ q) (fst <$> t))
  end.

Definition toy_chdir (t : fs) (cwd p : string) : oserror + string :=
  let q := resolve cwd p in
  match lookup q t with
  | Some (Dir _) => inr q
  | Some (Reg _) => inl NotADirectoryError
  | None => inl FileNotFoundError
  end.

#[global] Instance toy_os : OS := {|
  FS := fs;
  os_open := toy_open;
  os_iterdir := toy_iterdir;
  os_is_file := λ t cwd p,
    match lookup (resolve cwd p) t with Some (Reg _) => true | _ => false end;
  os_access_X_OK := λ t cwd p,
    match lookup (resolve cwd p) t with
    | Some (Reg x) => x | Some (Dir _) => true | None => false
    end;
  os_exists := λ t cwd p, bool_decide (is_Some (lookup (resolve cwd p) t));
  os_chdir := toy_chdir;
  os_popen_wait := λ t cwd argv, inr (t, EmptyString, EmptyString)
|}.

(** A machine with [/bin/ls], a home directory, [/tmp], and a directory
    [/secret] that may not be listed. *)
Definition disk : fs :=
  [ ("/", Dir true); ("/bin", Dir true); ("/bin/ls", Reg true);
    ("/bin/notes.txt", Reg false); ("/home", Dir true); ("/home/u", Dir true);
    ("/tmp", Dir true); ("/secret", Dir false) ].

Definition environ : gmap string string :=
  {[ "HOME" := "/home/u"; "PATH" := "/nowhere:/bin" ]}.

Definition world0 : World := mkWorld disk "/home/u" environ EmptyString EmptyString [].

Definition programs : gmap string string := {[ "ls" := "/bin/ls" ]}.

(** The same machine with HOME set to the empty string. *)
Definition world_empty_home : World :=
  mkWorld disk "/home/u" {[ "HOME" := EmptyString ]} EmptyString EmptyString [].

End Toy.

(** ** Vocabulary of the statements *)

(** The six operator tokens looked for by [main]. *)
Definition REDIRECTION_OPERATORS : list string :=
  [">"; "1>"; "2>"; ">>"; "1>>"; "2>>"].

(** The operator tokens that [main] looks for before it looks for [op]:
    those listed before [op] in [REDIRECTION_OPERATORS], which is in the
    order of the [if]s of [main]. *)
Fixpoint listed_before (op : string) (ops : list string) : list string :=
  match ops with
  | [] => []
  | x :: ops' => if decide (x = op) then [] else x :: listed_before op ops'
  end.

Definition consulted_before (op : string) : list string :=
  listed_before op REDIRECTION_OPERATORS.

(** The mode and the stream that [main] uses for each operator. *)
Definition operator_mode (op : string) : open_mode :=
  if contains op [">"; "1>"; "2>"] then ModeW else ModeA.

Definition operator_channel (op : string) : channel :=
  if contains op ["2>"; "2>>"] then Err else Out.

(** The automaton is inside a quotation: after an opening quote that has
    not been closed, possibly just after a backslash in it. *)
Definition inside_quotation (st : lex_state) : bool :=
  match st with
  | InQuote _ | InEscape (InQuote _) => true
  | _ => false
  end.

(** [l.count(x)]. *)
Fixpoint count (x : string) (l : list string) : nat :=
  match l with
  | [] => 0
  | y :: l' => (if decide (y = x) then 1 else 0) + count x l'
  end.

(** The token list matches one of the five builtin patterns of
    [handle_all]. *)
Definition builtin_form (cmds : list string) : bool :=
  match cmds with
  | c :: s =>
      String.eqb c "echo"
      || (String.eqb c "type" && bool_decide (List.length s = 1))
      || (String.eqb c "exit" && bool_decide (s = ["0"]))
      || (String.eqb c "pwd" && bool_decide (s = []))
      || (String.eqb c "cd" && bool_decide (List.length s = 1))
  | [] => false
  end.

Section Statements.
Context `{os : OS}.

(** The world after [sys.stdout.write(s)]. *)
Definition printed (s : string) (w : World) : World := set_stdout (λ o, o +:+ s) w.

(** The local variables at the top of the [try]. *)
Definition frame0 (cmds0 : list string) : Frame :=
  mkFrame cmds0 sys_stdout sys_stderr false false.

(** The shell's own streams and working directory are the same in both
    worlds. *)
Definition same_session (w w' : World) : Prop :=
  w_stdout w' = w_stdout w ∧ w_stderr w' = w_stderr w ∧ w_cwd w' = w_cwd w.

(** Lines 124-128 of [cd], for the path that the first three lines have
    computed. *)
Definition cd_to (path : string) (out : TextIO) : M World unit := λ w,
  if negb (os_exists (w_fs w) (w_cwd w) path)
  then write out ("cd: " +:+ path +:+ ": No such file or directory" +:+ nl) w
  else chdir path w.

(** The tokens of [st'] are those of [st] with some of them removed, none
    more frequent than before, two for each file opened in between. *)
Definition removes (st st' : Frame * World) : Prop :=
  (∀ x, count x (cmds st'.1) ≤ count x (cmds st.1))%nat
  ∧ sublist (cmds st'.1) (cmds st.1)
  ∧ List.length (cmds st.1) + 2 * List.length (w_files st.2)
    = List.length (cmds st'.1) + 2 * List.length (w_files st'.2).

(** Every file object created so far has been closed. *)
Definition all_closed (w : World) : Prop :=
  Forall (λ f, file_closed f = true) (w_files w).

Definition closed_flags (w : World) : list bool := file_closed <$> w_files w.

(** A command that opens and closes nothing. *)
Definition keeps_files {A} (m : M World A) : Prop :=
  ∀ w r w', m w = (r, w') → closed_flags w' = closed_flags w.

(** The n-th file object is the one that the [finally] block will close
    for [out], or for [err]. *)
Definition bound_to (fr : Frame) (n : nat) : Prop :=
  (close_out fr = true ∧ out fr = file_object n)
  ∨ (close_err fr = true ∧ err fr = file_object n).

(** Every file object is closed already or will be by the [finally]
    block. *)
Definition tracked (st : Frame * World) : Prop :=
  ∀ n f, w_files st.2 !! n = Some f → file_closed f = true ∨ bound_to st.1 n.

(** What the [finally] block does to the list of file objects, for one of
    its two [if]s. *)
Definition close_flagged (flag : bool) (stream : TextIO) (l : list file) : list file :=
  if flag then
    match stream with
    | file_object n => alter file_close n l
    | _ => l
    end
  else l.

(** A property of the state of the [try] body that a block keeps, however
    the block ends. *)
Definition preserves {A} (P : Frame * World → Prop) (m : M (Frame * World) A) : Prop :=
  ∀ st r st', P st → m st = (r, st') → P st'.

(** Number of operator tokens left for the output, and for the error
    stream. *)
Definition out_operators (l : list string) : nat :=
  count ">" l + count "1>" l + count ">>" l + count "1>>" l.
Definition err_operators (l : list string) : nat :=
  count "2>" l + count "2>>" l.

(** At most one redirection per stream: once a stream has been rebound, no
    operator for it is left among the tokens. *)
Definition one_per_stream (fr : Frame) : Prop :=
  (if close_out fr then out_operators (cmds fr) = 0
   else (out_operators (cmds fr) ≤ 1)%nat)
  ∧ (if close_err fr then err_operators (cmds fr) = 0
     else (err_operators (cmds fr) ≤ 1)%nat).

Definition well_tracked (st : Frame * World) : Prop :=
  one_per_stream st.1 ∧ tracked st.

(** The turn of the loop that handles [line] ends without an exception, so
    that the loop goes on to the next prompt. *)
Definition loop_continues (programs : gmap string string) (line : string) (w : World) : Prop :=
  ∃ w', handle_line programs line (printed "$ " w) = (Ok tt, w').

(** A block of [main] that leaves the shell's streams and directory alone,
    whatever its outcome. *)
Definition keeps_session {A} (m : M (Frame * World) A) : Prop :=
  ∀ fr w r st, m (fr, w) = (r, st) → same_session w st.2.

End Statements.

(** ** The completion (lines 31-47)

    [readline] calls [complete(text, state)] with [state] 0, 1, 2, ... until
    it answers [None], and [display_matches] to show the candidates. *)

(** [sorted(l)] on strings.  Python orders [str] by code points, one after
    the other, which is the order of the bytes of the strings. *)
Definition sorted (l : list string) : list string := merge_sort String.le l.

(** [l[i]] for a Python integer: a negative index counts from the end, an
    index out of range raises. *)
Definition getitem (l : list string) (i : Z) : result string :=
  let n := Z.of_nat (List.length l) in
  let j := if (i <? 0)%Z then (i + n)%Z else i in
  if (0 <=? j)%Z && (j <? n)%Z then
    match l !! Z.to_nat j with
    | Some x => Ok x
    | None => Raise IndexError
    end
  else Raise IndexError.

Section Completion.
Variable PROGRAMS_IN_PATH : gmap string string.

(** Line 31; the keys of the dictionary, in whatever order, are sorted with
    the builtins. *)
Definition COMPLETIONS : list string :=
  sorted (SHELL_BUILTINS ++ (map_to_list PROGRAMS_IN_PATH).*1).

(** The list [matches] of [complete]: [set] drops the duplicates, [sorted]
    fixes the order. *)
Definition matches_of (text : string) : list string :=
  sorted (remove_dups (filter (λ s, startswith text s = true) COMPLETIONS)).

Definition complete (text : string) (state : Z) : result (option string) :=
  let matches := matches_of text in
  if decide (List.length matches = 1) then
    if (state <? Z.of_nat (List.length matches))%Z then
      match getitem matches state with
      | Ok x => Ok (Some (x +:+ " "))
      | Raise e => Raise e
      end
    else Ok None
  else
    if (state <? Z.of_nat (List.length matches))%Z then
      match getitem matches state with
      | Ok x => Ok (Some x)
      | Raise e => Raise e
      end
    else Ok None.

End Completion.

Section Display.
Context `{os : OS}.


End Display.

(** ** Vocabulary of further statements *)

(** A name the shell knows: a builtin or a key of the dictionary. *)
Definition known (programs : gmap string string) (x : string) : Prop :=
  x ∈ SHELL_BUILTINS ∨ is_Some (programs !! x).

(** Strict order of strings. *)
Definition string_lt (a b : string) : Prop := String.le a b ∧ a ≠ b.

(** A character that [shlex] takes as it is: no white space, no quote, no
    backslash; a word made of such characters. *)
Definition plain_char (c : ascii) : bool :=
  negb (is_whitespace c) && negb (is_quote c) && negb (is_escape c).

Fixpoint plain_chars (s : string) : bool :=
  match s with
  | EmptyString => true
  | String c s' => plain_char c && plain_chars s'
  end.

Definition plain_word (s : string) : bool :=
  negb (String.eqb s EmptyString) && plain_chars s.

(** No single quote in the text. *)
Fixpoint no_single_quote (s : string) : bool :=
  match s with
  | EmptyString => true
  | String c s' => negb (Ascii.eqb c "'") && no_single_quote s'
  end.

Section Further_statements.
Context `{os : OS}.



(** The world once [open] has created one more file object. *)
Definition opened (name : string) (mode : open_mode) (fs' : FS) (w : World) : World :=
  set_files (λ fl, (fl ++ [File name mode EmptyString false])%list) (set_fs fs' w).

(** The world once the n-th file object has been closed. *)
Definition closed (n : nat) (w : World) : World := set_files (alter file_close n) w.

(** The streams of a command whose line redirects [ch] to the n-th file
    object. *)
Definition stream_out (ch : channel) (n : nat) : TextIO :=
  match ch with Out => file_object n | Err => sys_stdout end.
Definition stream_err (ch : channel) (n : nat) : TextIO :=
  match ch with Out => sys_stderr | Err => file_object n end.

End Further_statements.

(** More machines to run the code on: one where [/bin/ls] is also found in
    [/opt/bin], which comes later on the path. *)
Definition disk2 : Toy.fs :=
  [ ("/", Toy.Dir true); ("/bin", Toy.Dir true); ("/bin/ls", Toy.Reg true);
    ("/bin/notes.txt", Toy.Reg false); ("/opt", Toy.Dir true);
    ("/opt/bin", Toy.Dir true); ("/opt/bin/ls", Toy.Reg true);
    ("/opt/bin/lsblk", Toy.Reg true); ("/home", Toy.Dir true);
    ("/home/u", Toy.Dir true); ("/tmp", Toy.Dir true) ].

Definition programs2 : gmap string string :=
  {[ "ls" := "/opt/bin/ls"; "lsblk" := "/opt/bin/lsblk"; "echo" := "/bin/echo" ]}.

(** The same file system under a system whose programs print their
    argument vector, and which cannot start a program whose file is not in
    [/opt/bin] (any more). *)
Definition echoing_os : OS := {|
  FS := Toy.fs;
  os_open := Toy.toy_open;
  os_iterdir := Toy.toy_iterdir;
  os_is_file := os_is_file (OS := Toy.toy_os);
  os_access_X_OK := os_access_X_OK (OS := Toy.toy_os);
  os_exists := os_exists (OS := Toy.toy_os);
  os_chdir := Toy.toy_chdir;
  os_popen_wait := λ t cwd argv,
    match argv with
    | c :: _ =>
        match Toy.lookup ("/opt/bin/" +:+ c) t with
        | Some (Toy.Reg true) => inr (t, join " " argv +:+ nl, EmptyString)
        | _ => inl FileNotFoundError
        end
    | [] => inl FileNotFoundError
    end
|}.

Definition world2 : World (os := echoing_os) :=
  mkWorld (os := echoing_os) disk2 "/home/u" Toy.environ EmptyString EmptyString [].

(** A dictionary that was filled before [/opt/bin/gone] was removed, and one
    that holds a program with the name of a builtin. *)
Definition stale_programs : gmap string string :=
  {[ "ls" := "/opt/bin/ls"; "gone" := "/opt/bin/gone" ]}.

Definition shadowed_programs : gmap string string :=
  {[ "pwd" := "/opt/bin/pwd"; "exit" := "/opt/bin/exit" ]}.

Definition disk3 : Toy.fs := ("/opt/bin/exit", Toy.Reg true) :: disk2.

Definition world3 : World (os := echoing_os) :=
  mkWorld (os := echoing_os) disk3 "/home/u" Toy.environ EmptyString EmptyString [].

(** * Facts *)

Example shlex_words :
  shlex_split "echo hello  world" = Ok ["echo"; "hello"; "world"].
Proof. reflexivity. Qed.

(** [echo 'a  b' e\ f ''] followed by a double-quoted word holding an
    escaped double quote. *)
Example shlex_quotes :
  shlex_split ("echo 'a  b' e\ f '' " +:+ String "034" ("c\" +:+ String "034" ("d" +:+ String "034" EmptyString)))
  = Ok ["echo"; "a  b"; "e f"; EmptyString; "c" +:+ String "034" "d"].
Proof. reflexivity. Qed.

Example shlex_open_quote :
  shlex_split "echo 'a" = Raise (ValueError "No closing quotation").
Proof. reflexivity. Qed.

Example startup_toy : startup Toy.world0 = (Ok tt, Toy.programs).
Proof. vm_compute. reflexivity. Qed.

(** ** The monad *)

Section Monad_facts.
Context {S : Type}.

Lemma bind_run {A B} (m : M S A) (k : A → M S B) (s : S) :
  (m ≫= k) s =
  match m s with
  | (Ok a, s') => k a s'
  | (Raise e, s') => (Raise e, s')
  end.
Proof. reflexivity. Qed.

Lemma bind_ok {A B} (m : M S A) (k : A → M S B) s a s' :
  m s = (Ok a, s') → (m ≫= k) s = k a s'.
Proof. intros H. rewrite bind_run, H. reflexivity. Qed.

Lemma bind_raise {A B} (m : M S A) (k : A → M S B) s e s' :
  m s = (Raise e, s') → (m ≫= k) s = (Raise e, s').
Proof. intros H. rewrite bind_run, H. reflexivity. Qed.

Lemma try_finally_run {A} (body : M S A) (fin : M S unit) s r s' s'' :
  body s = (r, s') → fin s' = (Ok tt, s'') → try_finally body fin s = (r, s'').
Proof. intros Hb Hf. unfold try_finally. rewrite Hb, Hf. reflexivity. Qed.

End Monad_facts.

(** ** The tokenizer *)

Lemma lex_run_app (a b : string) (lx : lexer) :
  lex_run (a +:+ b) lx = lex_run b (lex_run a lx).
Proof.
  revert lx. induction a as [|c a IH]; intros lx; simpl.
  - reflexivity.
  - apply IH.
Qed.

(** Inside a quotation, characters other than the quote and the backslash
    are collected and the quotation stays open. *)
Lemma lex_run_in_quote (q : ascii) (body : string) :
  Forall (λ c, c ≠ q ∧ is_escape c = false) (list_ascii_of_string body) →
  ∀ tok quoted toks,
    lx_state (lex_run body (Lexer (InQuote q) tok quoted toks)) = InQuote q.
Proof.
  induction body as [|c body IH]; simpl; intros Hall tok quoted toks.
  - reflexivity.
  - inversion Hall as [|? ? [Hq Hesc] Hrest]; subst.
    destruct (Ascii.eqb_spec c q) as [->|_]; [contradiction|].
    rewrite Hesc. simpl. apply IH. exact Hrest.
Qed.

(** A prefix that [shlex.split] accepts leaves the automaton between words
    or inside a word. *)
Lemma shlex_split_ok_state (pre : string) (toks : list string) :
  shlex_split pre = Ok toks →
  lx_state (lex_run pre lex_init) = InWhite ∨ lx_state (lex_run pre lex_init) = InWord.
Proof.
  unfold shlex_split, lex_eof.
  destruct (lx_state (lex_run pre lex_init)); intros H; try discriminate; auto.
Qed.

(** A quote opened after such a prefix and not followed by its closing
    quote leaves the automaton inside the quotation at the end of the line. *)
Lemma open_quote_stays_open (pre body : string) (q : ascii) (toks : list string) :
  shlex_split pre = Ok toks →
  is_quote q = true →
  Forall (λ c, c ≠ q ∧ is_escape c = false) (list_ascii_of_string body) →
  lx_state (lex_run (pre +:+ String q body) lex_init) = InQuote q.
Proof.
  intros Hpre Hq Hbody. rewrite lex_run_app. simpl.
  assert (is_whitespace q = false ∧ is_escape q = false) as [Hw He].
  { unfold is_quote in Hq. apply orb_true_iff in Hq.
    destruct Hq as [Hq|Hq]; apply Ascii.eqb_eq in Hq; subst q; split; reflexivity. }
  destruct (lex_run pre lex_init) as [st tok quoted tl] eqn:E.
  apply shlex_split_ok_state in Hpre. rewrite E in Hpre. simpl in Hpre.
  destruct Hpre as [-> | ->]; simpl; rewrite Hw, He, Hq; simpl;
    apply lex_run_in_quote; exact Hbody.
Qed.

Lemma open_quote_inside_quotation (pre body : string) (q : ascii) (toks : list string) :
  shlex_split pre = Ok toks →
  is_quote q = true →
  Forall (λ c, c ≠ q ∧ is_escape c = false) (list_ascii_of_string body) →
  inside_quotation (lx_state (lex_run (pre +:+ String q body) lex_init)) = true.
Proof.
  intros Hpre Hq Hbody.
  rewrite (open_quote_stays_open pre body q toks Hpre Hq Hbody). reflexivity.
Qed.

Lemma inside_quotation_raises (line : string) :
  inside_quotation (lx_state (lex_run line lex_init)) = true →
  ∃ msg, (msg = "No closing quotation" ∨ msg = "No escaped character")
         ∧ shlex_split line = Raise (ValueError msg).
Proof.
  unfold shlex_split, lex_eof.
  destruct (lx_state (lex_run line lex_init)) as [| |q|st]; simpl; try discriminate.
  - intros _. eexists. split; [left|]; reflexivity.
  - intros _. eexists. split; [right|]; reflexivity.
Qed.

(** ** The loop *)

Section Loop_facts.
Context `{os : OS}.
Variable PROGRAMS_IN_PATH : gmap string string.

Lemma main_nil (w : World) :
  main PROGRAMS_IN_PATH [] w = (Raise EOFError, printed "$ " w).
Proof. reflexivity. Qed.

Lemma main_cons (line : string) (stdin : list string) (w : World) :
  main PROGRAMS_IN_PATH (line :: stdin) w =
  match handle_line PROGRAMS_IN_PATH line (printed "$ " w) with
  | (Ok _, w') => main PROGRAMS_IN_PATH stdin w'
  | (Raise e, w') => (Raise e, w')
  end.
Proof. reflexivity. Qed.

Lemma handle_line_split_raises (line : string) (e : exn) (w : World) :
  shlex_split line = Raise e →
  handle_line PROGRAMS_IN_PATH line w = (Raise e, w).
Proof. intros H. unfold handle_line, of_result. rewrite bind_run, H. reflexivity. Qed.

Lemma handle_line_split_ok (line : string) (cmds0 : list string) (w : World) :
  shlex_split line = Ok cmds0 →
  handle_line PROGRAMS_IN_PATH line w =
  with_frame (frame0 cmds0)
    (try_finally (try_body PROGRAMS_IN_PATH) finally_block) w.
Proof. intros H. unfold handle_line, of_result. rewrite bind_run, H. reflexivity. Qed.

End Loop_facts.

(** ** Extraction of the redirections *)

Section Extract_facts.
Context `{os : OS}.

Lemma redirect_run (op : string) (mode : open_mode) (ch : channel) (fr : Frame) (w : World) :
  redirect op mode ch (fr, w) =
  match index op (cmds fr) with
  | None => (Raise (ValueError "list.index(x): x not in list"), (fr, w))
  | Some i =>
      match cmds fr !! (i + 1) with
      | None => (Raise IndexError, (fr, w))
      | Some name =>
          match os_open (w_fs w) (w_cwd w) name mode with
          | inl e => (Raise (OSError e), (fr, w))
          | inr fs' =>
              (Ok tt,
               (rebind ch (file_object (List.length (w_files w)))
                  (take i (cmds fr) ++ drop (i + 2) (cmds fr)) fr,
                set_files (λ fl, (fl ++ [File name mode EmptyString false])%list)
                  (set_fs fs' w)))
          end
      end
  end.
Proof.
  unfold redirect. rewrite bind_run. simpl.
  destruct (index op (cmds fr)) as [i|]; [|reflexivity].
  destruct (cmds fr !! (i + 1)) as [name|]; [|reflexivity].
  rewrite bind_run. unfold lift_snd, open.
  destruct (os_open (w_fs w) (w_cwd w) name mode); reflexivity.
Qed.

Lemma if_only_run (a : string) (mode : open_mode) (ch : channel) (fr : Frame) (w : World) :
  if_only a mode ch (fr, w) =
  if contains a (cmds fr) then redirect a mode ch (fr, w) else (Ok tt, (fr, w)).
Proof. unfold if_only. rewrite bind_run. simpl. destruct (contains a (cmds fr)); reflexivity. Qed.

Lemma if_elif_run (a b : string) (mode : open_mode) (ch : channel) (fr : Frame) (w : World) :
  if_elif a b mode ch (fr, w) =
  if contains a (cmds fr) then redirect a mode ch (fr, w)
  else if contains b (cmds fr) then redirect b mode ch (fr, w)
  else (Ok tt, (fr, w)).
Proof.
  unfold if_elif. rewrite bind_run. simpl.
  destruct (contains a (cmds fr)); [reflexivity|].
  destruct (contains b (cmds fr)); reflexivity.
Qed.

Lemma same_session_refl (w : World) : same_session w w.
Proof. repeat split. Qed.

Lemma same_session_trans (w1 w2 w3 : World) :
  same_session w1 w2 → same_session w2 w3 → same_session w1 w3.
Proof. unfold same_session. intros (?&?&?) (?&?&?). repeat split; congruence. Qed.

Lemma keeps_session_bind {A B} (m : M (Frame * World) A) (k : A → M (Frame * World) B) :
  keeps_session m → (∀ a, keeps_session (k a)) → keeps_session (m ≫= k).
Proof.
  intros Hm Hk fr w r st. rewrite bind_run.
  destruct (m (fr, w)) as [[a|e] [fr1 w1]] eqn:E; intros H.
  - eapply same_session_trans; [eapply (Hm _ _ _ _ E)|eapply (Hk _ _ _ _ _ H)].
  - inversion H; subst. eapply (Hm _ _ _ _ E).
Qed.

Lemma keeps_session_redirect (op : string) (mode : open_mode) (ch : channel) :
  keeps_session (redirect op mode ch).
Proof.
  intros fr w r st. rewrite redirect_run.
  destruct (index op (cmds fr)) as [i|];
    [|intros H; inversion H; apply same_session_refl].
  destruct (cmds fr !! (i + 1)) as [name|];
    [|intros H; inversion H; apply same_session_refl].
  destruct (os_open (w_fs w) (w_cwd w) name mode);
    intros H; inversion H; repeat split.
Qed.

Lemma keeps_session_if_only (a : string) (mode : open_mode) (ch : channel) :
  keeps_session (if_only a mode ch).
Proof.
  intros fr w r st. rewrite if_only_run.
  destruct (contains a (cmds fr)).
  - apply keeps_session_redirect.
  - intros H; inversion H; apply same_session_refl.
Qed.

Lemma keeps_session_if_elif (a b : string) (mode : open_mode) (ch : channel) :
  keeps_session (if_elif a b mode ch).
Proof.
  intros fr w r st. rewrite if_elif_run.
  destruct (contains a (cmds fr)); [apply keeps_session_redirect|].
  destruct (contains b (cmds fr)); [apply keeps_session_redirect|].
  intros H; inversion H; apply same_session_refl.
Qed.

Lemma keeps_session_extract : keeps_session extract_redirections.
Proof.
  unfold extract_redirections.
  repeat (apply keeps_session_bind; [|intros _]);
    auto using keeps_session_if_only, keeps_session_if_elif.
Qed.

(** The [finally] block never raises and only closes files. *)
Lemma finally_block_run (fr : Frame) (w : World) :
  ∃ w', finally_block (fr, w) = (Ok tt, (fr, w')) ∧ same_session w w'.
Proof.
  destruct fr as [c o e [|] [|]]; destruct o, e;
    (eexists; split; [reflexivity|repeat split]).
Qed.

End Extract_facts.

(** ** Lines without redirection *)

Section Plain_lines.
Context `{os : OS}.
Variable PROGRAMS_IN_PATH : gmap string string.

Lemma contains_false (x : string) (l : list string) : x ∉ l → contains x l = false.
Proof. intros H. unfold contains. apply bool_decide_eq_false. exact H. Qed.

Lemma contains_true (x : string) (l : list string) : x ∈ l → contains x l = true.
Proof. intros H. unfold contains. apply bool_decide_eq_true. exact H. Qed.

Lemma extract_no_operator (fr : Frame) (w : World) :
  Forall (λ op, op ∉ cmds fr) REDIRECTION_OPERATORS →
  extract_redirections (fr, w) = (Ok tt, (fr, w)).
Proof.
  intros H. unfold REDIRECTION_OPERATORS in H.
  repeat match goal with
         | H : Forall _ (_ :: _) |- _ =>
             let Hx := fresh "Hop" in
             apply Forall_cons in H as [Hx H]; apply contains_false in Hx
         end.
  unfold extract_redirections.
  rewrite bind_run, if_elif_run, Hop, Hop0.
  rewrite bind_run, if_only_run, Hop1.
  rewrite bind_run, if_elif_run, Hop2, Hop3.
  rewrite if_only_run, Hop4. reflexivity.
Qed.

(** With no flag set, the [try ... finally] is its body. *)
Lemma handle_line_plain (line : string) (cmds0 : list string) (w : World) :
  shlex_split line = Ok cmds0 →
  Forall (λ op, op ∉ cmds0) REDIRECTION_OPERATORS →
  handle_line PROGRAMS_IN_PATH line w =
  handle_all PROGRAMS_IN_PATH cmds0 sys_stdout sys_stderr w.
Proof.
  intros Hsplit Hops. rewrite (handle_line_split_ok _ _ _ _ Hsplit).
  unfold with_frame, try_finally, try_body.
  rewrite (bind_ok _ _ _ _ _ (extract_no_operator (frame0 cmds0) w Hops)).
  rewrite bind_run. simpl. unfold lift_snd.
  destruct (handle_all PROGRAMS_IN_PATH cmds0 sys_stdout sys_stderr w) as [r w'].
  reflexivity.
Qed.

End Plain_lines.

(** ** Lists of tokens *)

Section Token_facts.
Implicit Types (x y : string) (l pre rest : list string).

Lemma index_split x l i :
  index x l = Some i →
  ∃ pre rest, l = (pre ++ x :: rest)%list ∧ (x ∉ pre) ∧ List.length pre = i.
Proof.
  revert i. induction l as [|y l IH]; intros i; simpl; [discriminate|].
  destruct (decide (y = x)) as [->|Hne].
  - intros [= <-]. exists [], l. split; [reflexivity|]. split; [apply not_elem_of_nil|reflexivity].
  - destruct (index x l) as [j|]; simpl; [|discriminate].
    intros [= <-]. destruct (IH j eq_refl) as (pre & rest & -> & Hfresh & Hlen).
    exists (y :: pre), rest. split; [reflexivity|]. split.
    + apply not_elem_of_cons. split; [congruence|exact Hfresh].
    + simpl. rewrite Hlen. reflexivity.
Qed.

Lemma index_fresh x pre rest :
  x ∉ pre → index x (pre ++ x :: rest) = Some (List.length pre).
Proof.
  induction pre as [|y pre IH]; simpl; intros Hfresh.
  - destruct (decide (x = x)); [reflexivity|contradiction].
  - apply not_elem_of_cons in Hfresh as [Hne Hfresh].
    destruct (decide (y = x)); [congruence|]. rewrite (IH Hfresh). reflexivity.
Qed.

Lemma slice_out pre x y rest :
  (take (List.length pre) (pre ++ x :: y :: rest)
   ++ drop (List.length pre + 2) (pre ++ x :: y :: rest))%list = (pre ++ rest)%list.
Proof. rewrite take_app_length, drop_app_add. reflexivity. Qed.

Lemma count_app x l1 l2 : count x (l1 ++ l2) = count x l1 + count x l2.
Proof. induction l1 as [|y l1 IH]; simpl; [reflexivity|]. rewrite IH. lia. Qed.


Lemma count_zero x l : count x l = 0 → x ∉ l.
Proof.
  induction l as [|y l IH]; simpl; intros H; [apply not_elem_of_nil|].
  destruct (decide (y = x)); [discriminate|].
  apply not_elem_of_cons. split; [congruence|apply IH; exact H].
Qed.

Lemma count_present x l : x ∈ l → (1 ≤ count x l)%nat.
Proof.
  intros Hin. destruct (count x l) eqn:E; [|lia].
  exfalso. eapply count_zero; eassumption.
Qed.


Lemma contains_count_true x l : contains x l = true → (1 ≤ count x l)%nat.
Proof.
  unfold contains. intros H. apply count_present.
  apply bool_decide_eq_true in H. exact H.
Qed.

End Token_facts.

Section Redirect_facts.
Context `{os : OS}.

(** A redirection that goes through removes the first occurrence of the
    operator and the token after it, and opens one file. *)
Lemma redirect_ok (op : string) (mode : open_mode) (ch : channel)
    (fr fr' : Frame) (w w' : World) :
  redirect op mode ch (fr, w) = (Ok tt, (fr', w')) →
  ∃ pre name rest,
    cmds fr = (pre ++ op :: name :: rest)%list ∧ (op ∉ pre)
    ∧ cmds fr' = (pre ++ rest)%list
    ∧ List.length (w_files w') = S (List.length (w_files w)).
Proof.
  rewrite redirect_run.
  destruct (index op (cmds fr)) as [i|] eqn:Hidx; [|discriminate].
  destruct (cmds fr !! (i + 1)) as [name|] eqn:Hname; [|discriminate].
  destruct (os_open (w_fs w) (w_cwd w) name mode) as [e|fs']; [discriminate|].
  intros [= <- <-].
  destruct (index_split _ _ _ Hidx) as (pre & rest & Hcmds & Hfresh & Hlen).
  subst i. rewrite Hcmds in Hname.
  rewrite lookup_app_r in Hname by lia.
  replace (List.length pre + 1 - List.length pre) with 1 in Hname by lia.
  destruct rest as [|name' rest]; [discriminate|].
  simpl in Hname. injection Hname as ->.
  exists pre, name, rest. split; [exact Hcmds|]. split; [exact Hfresh|]. split.
  - rewrite Hcmds. destruct ch; simpl; apply slice_out.
  - simpl. rewrite length_app. simpl. lia.
Qed.


End Redirect_facts.

(** ** The redirection that comes first *)

Section Stop_facts.
Context `{os : OS}.

(** The first operator that [main] finds: when no operator looked for
    before [op] is among the tokens and [op] is, the redirection for [op] is
    the first thing that the extraction does, and an exception there is the
    outcome of the extraction. *)
Lemma extract_stops_at (op : string) (cmds0 : list string) (w : World)
    (e : exn) (st : Frame * World) :
  op ∈ REDIRECTION_OPERATORS →
  Forall (λ x, x ∉ cmds0) (consulted_before op) →
  op ∈ cmds0 →
  redirect op (operator_mode op) (operator_channel op) (frame0 cmds0, w) = (Raise e, st) →
  extract_redirections (frame0 cmds0, w) = (Raise e, st).
Proof.
  intros Hop Hbefore Hin Hraise.
  assert (∀ x, x ∈ consulted_before op →
               contains x (cmds (frame0 cmds0)) = false) as Hother.
  { intros x Hx. apply contains_false.
    rewrite Forall_forall in Hbefore. apply Hbefore. exact Hx. }
  assert (contains op (cmds (frame0 cmds0)) = true) as Hsame
    by (apply contains_true; exact Hin).
  unfold extract_redirections, REDIRECTION_OPERATORS in *.
  repeat (apply elem_of_cons in Hop as [->|Hop]);
    [| | | | | |apply elem_of_nil in Hop; contradiction];
    change (operator_mode _) with ModeW in Hraise ||
    change (operator_mode _) with ModeA in Hraise;
    change (operator_channel _) with Out in Hraise ||
    change (operator_channel _) with Err in Hraise;
    repeat first
      [ rewrite Hraise; reflexivity
      | rewrite bind_run
      | rewrite if_elif_run
      | rewrite if_only_run
      | rewrite Hsame
      | rewrite Hother by (apply (bool_decide_unpack _); vm_compute; exact I) ].
Qed.

(** When the file name after that operator cannot be opened, the
    extraction ends with the [OSError], nothing having been opened. *)
Lemma extract_open_fails (op name : string) (cmds0 : list string) (w : World)
    (i : nat) (e : oserror) :
  op ∈ REDIRECTION_OPERATORS →
  Forall (λ x, x ∉ cmds0) (consulted_before op) →
  index op cmds0 = Some i →
  cmds0 !! (i + 1) = Some name →
  os_open (w_fs w) (w_cwd w) name (operator_mode op) = inl e →
  extract_redirections (frame0 cmds0, w) = (Raise (OSError e), (frame0 cmds0, w)).
Proof.
  intros Hop Hbefore Hidx Hname Hopen.
  apply (extract_stops_at op); [exact Hop|exact Hbefore| |].
  - destruct (index_split _ _ _ Hidx) as (pre & rest & -> & _ & _).
    apply elem_of_app. right. apply elem_of_cons. left. reflexivity.
  - rewrite redirect_run. simpl. rewrite Hidx, Hname, Hopen. reflexivity.
Qed.


End Stop_facts.

(** ** Tokens removed by the extraction *)

Section Removal_facts.
Context `{os : OS}.



Lemma redirect_removes (op : string) (mode : open_mode) (ch : channel)
    (st st' : Frame * World) :
  redirect op mode ch st = (Ok tt, st') →
  removes st st' ∧ (count op (cmds st'.1) + 1 ≤ count op (cmds st.1))%nat.
Proof.
  destruct st as [fr w], st' as [fr' w']. intros H.
  destruct (redirect_ok _ _ _ _ _ _ _ H) as (pre & name & rest & Hc & Hfresh & Hc' & Hlen).
  unfold removes. simpl. rewrite Hc, Hc'. repeat split.
  - intros x. rewrite !count_app. simpl. repeat case_decide; lia.
  - apply sublist_app; [reflexivity|]. do 2 apply sublist_cons. reflexivity.
  - rewrite !length_app. simpl. lia.
  - rewrite !count_app. simpl. repeat case_decide; try lia; congruence.
Qed.



End Removal_facts.

(** ** [cd] *)

Section Cd_facts.
Context `{os : OS}.

Lemma write_cwd (out : TextIO) (s : string) (w : World) :
  w_cwd (write out s w).2 = w_cwd w.
Proof.
  destruct out as [| |n]; simpl; try reflexivity.
  destruct (w_files w !! n) as [f|]; [|reflexivity].
  destruct (file_closed f); reflexivity.
Qed.

Lemma cd_run (path : string) (out err : TextIO) (w : World) :
  cd path out err w =
  cd_to (if startswith "~" path
         then replace "~" (or_default (w_environ w !! "HOME") "/root") path
         else path) out w.
Proof.
  unfold cd, cd_to. rewrite bind_run.
  destruct (startswith "~" path); simpl; rewrite bind_run; simpl;
    match goal with |- context [os_exists ?a ?b ?c] => destruct (os_exists a b c) end;
    reflexivity.
Qed.

Lemma string_app_cons (x : ascii) (a b : string) :
  String x a +:+ b = String x (a +:+ b).
Proof. reflexivity. Qed.

Lemma string_app_assoc (a b c : string) : a +:+ b +:+ c = (a +:+ b) +:+ c.
Proof.
  induction a as [|x a IH]; [reflexivity|].
  rewrite !string_app_cons, IH. reflexivity.
Qed.

(** The replacement goes through the whole argument: it distributes over
    concatenation, turns a tilde into [new] and leaves other characters. *)
Lemma replace_app (old : ascii) (new a b : string) :
  replace old new (a +:+ b) = replace old new a +:+ replace old new b.
Proof.
  induction a as [|c a IH]; [reflexivity|].
  rewrite string_app_cons. simpl.
  destruct (Ascii.eqb c old); rewrite IH.
  - apply string_app_assoc.
  - reflexivity.
Qed.

Lemma replace_tilde_everywhere (new a b : string) :
  replace "~" new (a +:+ "~" +:+ b) = replace "~" new a +:+ new +:+ replace "~" new b.
Proof. rewrite replace_app. reflexivity. Qed.

Lemma replace_absent (old : ascii) (new s : string) :
  Forall (λ c, c ≠ old) (list_ascii_of_string s) → replace old new s = s.
Proof.
  induction s as [|c s IH]; simpl; intros H; [reflexivity|].
  inversion H as [|? ? Hc Hs]; subst.
  destruct (Ascii.eqb_spec c old) as [->|_]; [contradiction|].
  rewrite (IH Hs). reflexivity.
Qed.

Example replace_two_tildes : replace "~" "/home/u" "~/a~b" = "/home/u/a/home/ub".
Proof. reflexivity. Qed.

End Cd_facts.

(** ** The scan of the search path *)

Section Path_facts.
Context `{os : OS}.
Variables (fs : FS) (cwd : string).

Lemma scan_dirs_app (a b : list string) (programs : gmap string string) :
  scan_dirs fs cwd (a ++ b) programs =
  match scan_dirs fs cwd a programs with
  | (Ok _, programs') => scan_dirs fs cwd b programs'
  | (Raise e, programs') => (Raise e, programs')
  end.
Proof.
  revert programs. induction a as [|d a IH]; intros programs.
  - reflexivity.
  - change (scan_dirs fs cwd ((d :: a) ++ b)) with
      (try_except_FileNotFoundError (scan_dir fs cwd d) (mret tt) ;;
       scan_dirs fs cwd (a ++ b)).
    change (scan_dirs fs cwd (d :: a)) with
      (try_except_FileNotFoundError (scan_dir fs cwd d) (mret tt) ;;
       scan_dirs fs cwd a).
    rewrite !bind_run.
    destruct (try_except_FileNotFoundError (scan_dir fs cwd d) (mret tt) programs)
      as [[[]|e] programs1].
    + apply IH.
    + reflexivity.
Qed.

Lemma scan_dirs_missing (d : string) (rest : list string) (programs : gmap string string) :
  os_iterdir fs cwd d = inl FileNotFoundError →
  scan_dirs fs cwd (d :: rest) programs = scan_dirs fs cwd rest programs.
Proof.
  intros H. simpl. rewrite bind_run.
  unfold try_except_FileNotFoundError, scan_dir. rewrite H. reflexivity.
Qed.

Lemma scan_dirs_denied (d : string) (rest : list string) (programs : gmap string string) :
  os_iterdir fs cwd d = inl PermissionError →
  scan_dirs fs cwd (d :: rest) programs = (Raise (OSError PermissionError), programs).
Proof.
  intros H. simpl. rewrite bind_run.
  unfold try_except_FileNotFoundError, scan_dir. rewrite H. reflexivity.
Qed.

End Path_facts.

(** ** Files opened for a line *)

Section Files_facts.
Context `{os : OS}.
Variable PROGRAMS_IN_PATH : gmap string string.

Lemma keeps_files_raise {A} (e : exn) : keeps_files (raise (A := A) e).
Proof. intros w r w' [= <- <-]. reflexivity. Qed.

Lemma keeps_files_bind {A B} (m : M World A) (k : A → M World B) :
  keeps_files m → (∀ a, keeps_files (k a)) → keeps_files (m ≫= k).
Proof.
  intros Hm Hk w r w'. rewrite bind_run.
  destruct (m w) as [[a|e] w1] eqn:E; intros H.
  - rewrite (Hk _ _ _ _ H). apply (Hm _ _ _ E).
  - inversion H; subst. apply (Hm _ _ _ E).
Qed.

Lemma keeps_files_write (stream : TextIO) (s : string) : keeps_files (write stream s).
Proof.
  intros w r w'. destruct stream as [| |n]; simpl.
  - intros [= <- <-]. reflexivity.
  - intros [= <- <-]. reflexivity.
  - destruct (w_files w !! n) as [f|]; [|intros [= <- <-]; reflexivity].
    destruct (file_closed f); intros [= <- <-]; [reflexivity|].
    unfold closed_flags. simpl.
    rewrite (list_fmap_alter file_closed (file_write s) id)
      by (apply Forall_forall; intros x _; reflexivity).
    apply list_alter_id. reflexivity.
Qed.

Lemma keeps_files_chdir (path : string) : keeps_files (chdir path).
Proof.
  intros w r w'. unfold chdir.
  destruct (os_chdir (w_fs w) (w_cwd w) path); intros [= <- <-]; reflexivity.
Qed.

Lemma keeps_files_popen_wait (argv : list string) (out err : TextIO) :
  keeps_files (popen_wait argv out err).
Proof.
  intros w r w'. unfold popen_wait.
  destruct (os_popen_wait (w_fs w) (w_cwd w) argv) as [e|[[fs' o] e]].
  - intros [= <- <-]. reflexivity.
  - intros H.
    apply (keeps_files_bind _ _ (keeps_files_write out o)
             (λ _, keeps_files_write err e)) in H.
    exact H.
Qed.

Lemma keeps_files_type_command (command : string) (out err : TextIO) :
  keeps_files (type_command PROGRAMS_IN_PATH command out err).
Proof.
  unfold type_command. destruct (contains command SHELL_BUILTINS).
  - apply keeps_files_write.
  - destruct (PROGRAMS_IN_PATH !! command); apply keeps_files_write.
Qed.

Lemma keeps_files_cd (path : string) (out err : TextIO) : keeps_files (cd path out err).
Proof.
  intros w r w'. rewrite cd_run. unfold cd_to.
  match goal with |- context [os_exists ?a ?b ?c] => destruct (os_exists a b c) end; simpl.
  - apply keeps_files_chdir.
  - apply keeps_files_write.
Qed.

Lemma keeps_files_external_or_unknown (cmds : list string) (out err : TextIO) :
  keeps_files (external_or_unknown PROGRAMS_IN_PATH cmds out err).
Proof.
  unfold external_or_unknown. destruct cmds as [|cmd args].
  - apply keeps_files_write.
  - destruct (bool_decide (is_Some (PROGRAMS_IN_PATH !! cmd))).
    + apply keeps_files_popen_wait.
    + apply keeps_files_write.
Qed.

(** No command of [handle_all] opens or closes a file. *)
Lemma keeps_files_handle_all (cmds : list string) (out err : TextIO) :
  keeps_files (handle_all PROGRAMS_IN_PATH cmds out err).
Proof.
  unfold handle_all. destruct cmds as [|c s].
  - apply keeps_files_external_or_unknown.
  - destruct (String.eqb c "echo"); [apply keeps_files_write|].
    destruct s as [|a [|b s]].
    + destruct (String.eqb c "pwd"); [|apply keeps_files_external_or_unknown].
      apply keeps_files_bind.
      * intros w r w' [= <- <-]. reflexivity.
      * intros d. apply keeps_files_write.
    + destruct (String.eqb c "type"); [apply keeps_files_type_command|].
      destruct (String.eqb c "exit" && String.eqb a "0"); [apply keeps_files_raise|].
      destruct (String.eqb c "cd"); [apply keeps_files_cd|].
      apply keeps_files_external_or_unknown.
    + apply keeps_files_external_or_unknown.
Qed.

End Files_facts.

Section Tracking_facts.
Context `{os : OS}.
Variable PROGRAMS_IN_PATH : gmap string string.

Lemma preserves_bind {A B} (P : Frame * World → Prop)
    (m : M (Frame * World) A) (k : A → M (Frame * World) B) :
  preserves P m → (∀ a, preserves P (k a)) → preserves P (m ≫= k).
Proof.
  intros Hm Hk st r st' HP. rewrite bind_run.
  destruct (m st) as [[a|e] st1] eqn:E; intros H.
  - eapply Hk; [|exact H]. eapply Hm; eassumption.
  - inversion H; subst. eapply Hm; eassumption.
Qed.

Lemma redirect_raise (op : string) (mode : open_mode) (ch : channel)
    (st st' : Frame * World) (e : exn) :
  redirect op mode ch st = (Raise e, st') → st' = st.
Proof.
  destruct st as [fr w]. rewrite redirect_run.
  destruct (index op (cmds fr)) as [i|]; [|intros [= _ <-]; reflexivity].
  destruct (cmds fr !! (i + 1)) as [name|]; [|intros [= _ <-]; reflexivity].
  destruct (os_open (w_fs w) (w_cwd w) name mode); [|discriminate].
  intros [= _ <-]. reflexivity.
Qed.

Lemma redirect_ok_frame (op : string) (mode : open_mode) (ch : channel)
    (fr fr' : Frame) (w w' : World) :
  redirect op mode ch (fr, w) = (Ok tt, (fr', w')) →
  ∃ name cmds',
    fr' = rebind ch (file_object (List.length (w_files w))) cmds' fr
    ∧ w_files w' = (w_files w ++ [File name mode EmptyString false])%list.
Proof.
  rewrite redirect_run.
  destruct (index op (cmds fr)) as [i|]; [|discriminate].
  destruct (cmds fr !! (i + 1)) as [name|]; [|discriminate].
  destruct (os_open (w_fs w) (w_cwd w) name mode); [discriminate|].
  intros [= <- <-]. eauto.
Qed.

Lemma tracked_rebind (ch : channel) (fr : Frame) (w w' : World)
    (new : file) (cmds' : list string) :
  match ch with Out => close_out fr = false | Err => close_err fr = false end →
  w_files w' = (w_files w ++ [new])%list →
  tracked (fr, w) →
  tracked (rebind ch (file_object (List.length (w_files w))) cmds' fr, w').
Proof.
  intros Hflag Hfiles Htr n f. simpl. rewrite Hfiles.
  intros [Hold|[Hn Hnew]]%lookup_app_Some.
  - destruct (Htr n f Hold) as [Hc|[[Ho1 Ho2]|[He1 He2]]]; [left; exact Hc| |].
    + destruct ch; simpl in *.
      * congruence.
      * right. left. split; assumption.
    + destruct ch; simpl in *.
      * right. right. split; assumption.
      * congruence.
  - right. assert (n = List.length (w_files w)) as ->.
    { apply lookup_lt_Some in Hnew. simpl in Hnew. lia. }
    destruct ch; [left|right]; split; reflexivity.
Qed.

(** A redirection for a stream that has not been rebound yet keeps every
    file tracked, and uses up the only operator of that stream. *)
Lemma redirect_well_tracked (op : string) (mode : open_mode) (ch : channel)
    (st : Frame * World) :
  match ch with
  | Out => op ∈ [">"; "1>"; ">>"; "1>>"]
  | Err => op ∈ ["2>"; "2>>"]
  end →
  contains op (cmds st.1) = true →
  ∀ r st', well_tracked st → redirect op mode ch st = (r, st') → well_tracked st'.
Proof.
  intros Hop Hin r st' [Hone Htr] Hrun.
  destruct r as [[]|e]; [|apply redirect_raise in Hrun as ->; split; assumption].
  destruct st as [fr w], st' as [fr' w'].
  destruct (redirect_removes _ _ _ _ _ Hrun) as [(Hmono & _) Hdec].
  destruct (redirect_ok_frame _ _ _ _ _ _ _ Hrun) as (name & cmds' & Hfr & Hfiles).
  simpl in *. apply contains_count_true in Hin.
  destruct Hone as [Hout Herr].
  assert (cmds fr' = cmds') as Hcmds by (subst fr'; destruct ch; reflexivity).
  destruct ch.
  - assert (close_out fr = false ∧ out_operators (cmds fr') = 0) as [Hflag Hzero].
    { unfold out_operators in *.
      pose proof (Hmono ">"). pose proof (Hmono "1>").
      pose proof (Hmono ">>"). pose proof (Hmono "1>>").
      repeat (apply elem_of_cons in Hop as [->|Hop]);
        [| | | |apply elem_of_nil in Hop; contradiction];
        (destruct (close_out fr); [lia|split; [reflexivity|lia]]). }
    split.
    + rewrite Hcmds in *. rewrite Hfr. split; simpl; [exact Hzero|].
      unfold err_operators in *.
      pose proof (Hmono "2>"). pose proof (Hmono "2>>").
      destruct (close_err fr); lia.
    + rewrite Hfr. apply (tracked_rebind Out fr w w' _ cmds' Hflag Hfiles Htr).
  - assert (close_err fr = false ∧ err_operators (cmds fr') = 0) as [Hflag Hzero].
    { unfold err_operators in *.
      pose proof (Hmono "2>"). pose proof (Hmono "2>>").
      repeat (apply elem_of_cons in Hop as [->|Hop]);
        [| |apply elem_of_nil in Hop; contradiction];
        (destruct (close_err fr); [lia|split; [reflexivity|lia]]). }
    split.
    + rewrite Hcmds in *. rewrite Hfr. split; simpl; [|exact Hzero].
      unfold out_operators in *.
      pose proof (Hmono ">"). pose proof (Hmono "1>").
      pose proof (Hmono ">>"). pose proof (Hmono "1>>").
      destruct (close_out fr); lia.
    + rewrite Hfr. apply (tracked_rebind Err fr w w' _ cmds' Hflag Hfiles Htr).
Qed.

Lemma if_only_well_tracked (a : string) (mode : open_mode) (ch : channel) :
  match ch with
  | Out => a ∈ [">"; "1>"; ">>"; "1>>"]
  | Err => a ∈ ["2>"; "2>>"]
  end →
  preserves well_tracked (if_only a mode ch).
Proof.
  intros Ha [fr w] r st' Hst. rewrite if_only_run.
  destruct (contains a (cmds fr)) eqn:E.
  - apply (redirect_well_tracked a mode ch (fr, w) Ha E); exact Hst.
  - intros [= _ <-]. exact Hst.
Qed.

Lemma if_elif_well_tracked (a b : string) (mode : open_mode) :
  a ∈ [">"; "1>"; ">>"; "1>>"] → b ∈ [">"; "1>"; ">>"; "1>>"] →
  preserves well_tracked (if_elif a b mode Out).
Proof.
  intros Ha Hb [fr w] r st' Hst. rewrite if_elif_run.
  destruct (contains a (cmds fr)) eqn:Ea; [|destruct (contains b (cmds fr)) eqn:Eb].
  - apply (redirect_well_tracked a mode Out (fr, w) Ha Ea); exact Hst.
  - apply (redirect_well_tracked b mode Out (fr, w) Hb Eb); exact Hst.
  - intros [= _ <-]. exact Hst.
Qed.

Lemma extract_well_tracked : preserves well_tracked extract_redirections.
Proof.
  unfold extract_redirections.
  repeat (apply preserves_bind; [|intros _]);
    first [ apply if_elif_well_tracked | apply (if_only_well_tracked _ _ Err) ];
    apply (bool_decide_unpack _); vm_compute; exact I.
Qed.

(** What the [finally] block leaves. *)
Lemma finally_block_files (fr : Frame) (w : World) :
  finally_block (fr, w) =
  (Ok tt,
   (fr, set_files (λ l, close_flagged (close_err fr) (err fr)
                          (close_flagged (close_out fr) (out fr) l)) w)).
Proof.
  destruct w, fr as [c o e [|] [|]]; destruct o, e; reflexivity.
Qed.

Lemma close_flagged_lookup (flag : bool) (stream : TextIO) (l : list file)
    (n : nat) (f' : file) :
  close_flagged flag stream l !! n = Some f' →
  ∃ f, l !! n = Some f
       ∧ (file_closed f = true → file_closed f' = true)
       ∧ (flag = true → stream = file_object n → file_closed f' = true).
Proof.
  unfold close_flagged. destruct flag; [destruct stream as [| |m]|];
    try (intros H; exists f'; split; [exact H|]; split; [auto|discriminate]).
  rewrite list_lookup_alter. case_decide as Hm.
  - subst m. destruct (l !! n) as [f|]; [|discriminate].
    intros [= <-]. exists f. split; [reflexivity|]. split; reflexivity.
  - intros H. exists f'. split; [exact H|]. split; [auto|].
    intros _ [= ->]. contradiction.
Qed.

(** A tracked state has all its files closed once the [finally] block has
    run. *)
Lemma finally_block_closes (st st' : Frame * World) (r : result unit) :
  tracked st → finally_block st = (r, st') → all_closed st'.2.
Proof.
  destruct st as [fr w]. intros Htr. rewrite finally_block_files.
  intros [= _ <-]. unfold all_closed. simpl.
  apply Forall_lookup. intros n f2 H2.
  apply close_flagged_lookup in H2 as (f1 & H1 & Hkeep2 & Herr).
  apply close_flagged_lookup in H1 as (f0 & H0 & Hkeep1 & Hout).
  destruct (Htr n f0 H0) as [Hc|[[Ho1 Ho2]|[He1 He2]]]; simpl in *; auto.
Qed.

(** If the line holds at most one operator for the output and at most one
    for the error stream, every file is closed when the turn ends, however
    it ends. *)
Lemma files_closed_after_turn (line : string) (w w' : World) (r : result unit) :
  (∀ cmds0, shlex_split line = Ok cmds0 →
            (out_operators cmds0 ≤ 1)%nat ∧ (err_operators cmds0 ≤ 1)%nat) →
  all_closed w →
  handle_line PROGRAMS_IN_PATH line w = (r, w') →
  all_closed w'.
Proof.
  intros Hops Hclosed.
  destruct (shlex_split line) as [cmds0|e] eqn:Hsplit.
  - destruct (Hops cmds0 eq_refl) as [Hout Herr].
    rewrite (handle_line_split_ok _ _ _ _ Hsplit).
    unfold with_frame, try_finally.
    destruct (try_body PROGRAMS_IN_PATH (frame0 cmds0, w)) as [r1 st1] eqn:Hbody.
    destruct (finally_block st1) as [r2 st2] eqn:Hfin.
    assert (tracked st1) as Htr.
    { assert (well_tracked (frame0 cmds0, w)) as H0.
      { split; [split; simpl; assumption|].
        intros n f Hn. left. simpl in Hn.
        unfold all_closed in Hclosed. rewrite Forall_lookup in Hclosed.
        eapply Hclosed; eassumption. }
      unfold try_body in Hbody. rewrite bind_run in Hbody.
      destruct (extract_redirections (frame0 cmds0, w)) as [[[]|e] [fr1 w1]] eqn:Hext;
        pose proof (extract_well_tracked _ _ _ H0 Hext) as [_ Htr1].
      - rewrite bind_run in Hbody. simpl in Hbody. unfold lift_snd in Hbody.
        destruct (handle_all PROGRAMS_IN_PATH (cmds fr1) (out fr1) (err fr1) w1)
          as [r3 w3] eqn:Hrun.
        injection Hbody as _ <-.
        pose proof (keeps_files_handle_all PROGRAMS_IN_PATH _ _ _ _ _ _ Hrun) as Hflags.
        intros n f3 H3. simpl in *.
        assert ((file_closed <$> w_files w3) !! n = Some (file_closed f3)) as Hf
          by (rewrite list_lookup_fmap, H3; reflexivity).
        unfold closed_flags in Hflags. rewrite Hflags, list_lookup_fmap in Hf.
        destruct (w_files w1 !! n) as [f1|] eqn:H1; [|discriminate].
        injection Hf as Hf.
        destruct (Htr1 n f1 H1) as [Hc|Hb]; [left; congruence|right; exact Hb].
      - injection Hbody as _ <-. exact Htr1. }
    pose proof (finally_block_closes _ _ _ Htr Hfin) as Hall.
    destruct r2; intros [= _ <-]; exact Hall.
  - rewrite (handle_line_split_raises _ _ _ _ Hsplit). intros [= _ <-]. exact Hclosed.
Qed.

End Tracking_facts.

(** * The claims *)

Section Claims.
Context `{os : OS}.
Variable PROGRAMS_IN_PATH : gmap string string.

(** C1 (amended).  When the end of the line is reached inside a quotation
    (an unterminated single or double quote), [shlex.split] raises a
    [ValueError] ("No closing quotation", or "No escaped character" when the
    line stops right after a backslash of the quotation); [main] has no
    handler for it, so the exception leaves [main] and ends the loop.  The
    shell itself has written nothing but the prompt, and the lines that
    follow are never read. *)
Theorem C1_unterminated_quote_ends_the_loop
    (line : string) (stdin : list string) (w : World) :
  inside_quotation (lx_state (lex_run line lex_init)) = true →
  ∃ msg, (msg = "No closing quotation" ∨ msg = "No escaped character")
         ∧ shlex_split line = Raise (ValueError msg)
         ∧ main PROGRAMS_IN_PATH (line :: stdin) w =
             (Raise (ValueError msg), printed "$ " w).
Proof.
  intros Hq. destruct (inside_quotation_raises line Hq) as (msg & Hmsg & Hsplit).
  exists msg. split; [exact Hmsg|]. split; [exact Hsplit|].
  rewrite main_cons.
  rewrite (handle_line_split_raises _ _ _ _ Hsplit). reflexivity.
Qed.

(** C2 (amended).  When [open] fails on a redirection target while the
    redirections of a line are extracted, the [OSError] is not caught:
    [handle_all] is not reached (the shell's output, its error stream and its
    working directory are as they were, apart from the prompt), nothing is
    written to the error stream, and the exception leaves [main], ending the
    loop. *)
Theorem C2_unopenable_target_ends_the_loop
    (line : string) (cmds0 : list string) (stdin : list string) (w : World)
    (e : oserror) (st : Frame * World) :
  shlex_split line = Ok cmds0 →
  extract_redirections (frame0 cmds0, printed "$ " w) = (Raise (OSError e), st) →
  ∃ w', main PROGRAMS_IN_PATH (line :: stdin) w = (Raise (OSError e), w')
        ∧ w_stdout w' = w_stdout w +:+ "$ "
        ∧ w_stderr w' = w_stderr w
        ∧ w_cwd w' = w_cwd w.
Proof.
  intros Hsplit Hext.
  destruct st as [fr1 w1].
  destruct (finally_block_run fr1 w1) as (w2 & Hfin & Hs2).
  pose proof (keeps_session_extract _ _ _ _ Hext) as Hs1. simpl in Hs1.
  exists w2. split.
  - rewrite main_cons, (handle_line_split_ok _ _ _ _ Hsplit).
    unfold with_frame.
    rewrite (try_finally_run _ _ _ (Raise (OSError e)) (fr1, w1) (fr1, w2)).
    + reflexivity.
    + unfold try_body. apply bind_raise. exact Hext.
    + exact Hfin.
  - destruct Hs1 as (H1 & H2 & H3), Hs2 as (H4 & H5 & H6).
    simpl in H1, H2, H3. repeat split; congruence.
Qed.


(** C5 (amended).  When the tokens left after the extraction of the
    redirections fit none of the builtin patterns and their first word is not
    a key of [PROGRAMS_IN_PATH], [handle_all] writes these tokens joined by
    single spaces (not the line as typed), then [: command not found] and a
    newline, to the output stream of the command, and does nothing else.  On
    a line without redirection operator that stream is the shell's standard
    output. *)
Theorem C5_unknown_command
    (c : string) (s : list string) (out err : TextIO) (w : World) :
  builtin_form (c :: s) = false →
  PROGRAMS_IN_PATH !! c = None →
  handle_all PROGRAMS_IN_PATH (c :: s) out err w =
    write out (join " " (c :: s) +:+ ": command not found" +:+ nl) w
  ∧ ∀ line,
      shlex_split line = Ok (c :: s) →
      Forall (λ op, op ∉ c :: s) REDIRECTION_OPERATORS →
      handle_line PROGRAMS_IN_PATH line w =
        (Ok tt, printed (join " " (c :: s) +:+ ": command not found" +:+ nl) w).
Proof.
  intros Hform Hnone.
  assert (∀ out err, handle_all PROGRAMS_IN_PATH (c :: s) out err w =
          write out (join " " (c :: s) +:+ ": command not found" +:+ nl) w) as Hall.
  { clear out err. intros out err.
    unfold builtin_form in Hform. unfold handle_all.
    assert (external_or_unknown PROGRAMS_IN_PATH (c :: s) out err w =
            write out (join " " (c :: s) +:+ ": command not found" +:+ nl) w) as Hext.
    { unfold external_or_unknown. rewrite Hnone. reflexivity. }
    destruct (String.eqb c "echo"); [discriminate|].
    destruct s as [|a [|b s']]; simpl in Hform.
    - destruct (String.eqb c "pwd"); [|exact Hext].
      rewrite !andb_false_r in Hform. discriminate.
    - destruct (String.eqb c "type"); [discriminate|].
      destruct (String.eqb c "exit") eqn:Eexit; simpl.
      + destruct (String.eqb_spec a "0") as [->|Hne].
        * rewrite bool_decide_eq_true_2 in Hform by reflexivity. discriminate.
        * destruct (String.eqb c "cd") eqn:Ecd; [|exact Hext].
          apply String.eqb_eq in Eexit, Ecd. congruence.
      + destruct (String.eqb c "cd"); [|exact Hext].
        rewrite !orb_true_r in Hform. discriminate.
    - exact Hext. }
  split; [apply Hall|].
  intros line Hsplit Hops.
  rewrite (handle_line_plain _ _ _ _ Hsplit Hops). apply Hall.
Qed.

(** C6 (amended).  When the path that [cd] looks up does not exist, [cd]
    writes [cd: <path>: No such file or directory] to the output stream of
    the command, where <path> is the path looked up: the argument after its
    tildes have been replaced when it begins with a tilde, the argument as
    given otherwise.  The working directory is left unchanged. *)
Theorem C6_cd_missing_directory (path target : string) (out err : TextIO) (w : World) :
  target = (if startswith "~" path
            then replace "~" (or_default (w_environ w !! "HOME") "/root") path
            else path) →
  os_exists (w_fs w) (w_cwd w) target = false →
  cd path out err w =
    write out ("cd: " +:+ target +:+ ": No such file or directory" +:+ nl) w
  ∧ w_cwd (cd path out err w).2 = w_cwd w.
Proof.
  intros Htarget Hmissing.
  assert (cd path out err w =
          write out ("cd: " +:+ target +:+ ": No such file or directory" +:+ nl) w) as Hcd.
  { rewrite cd_run, <- Htarget. unfold cd_to. rewrite Hmissing. reflexivity. }
  split; [exact Hcd|]. rewrite Hcd. apply write_cwd.
Qed.

(** C7 (amended).  A line that tokenizes to the empty sequence reaches the
    catch-all case of [handle_all]: the shell writes [: command not found]
    and a newline to its standard output, and the loop goes on. *)
Theorem C7_empty_line_is_reported (line : string) (w : World) :
  shlex_split line = Ok [] →
  handle_line PROGRAMS_IN_PATH line w =
    (Ok tt, printed (": command not found" +:+ nl) w).
Proof.
  intros Hsplit.
  rewrite (handle_line_plain _ _ _ _ Hsplit).
  - reflexivity.
  - unfold REDIRECTION_OPERATORS. repeat constructor; apply not_elem_of_nil.
Qed.

(** C8 (amended).  The directories of the search path are visited in the
    listed order.  A directory that does not exist is skipped silently: the
    scan gives what it gives without that directory.  A directory whose
    listing is refused for lack of permission is not skipped: the
    [PermissionError] is not caught by the [except FileNotFoundError] clause
    and ends the scan, with the dictionary as the earlier directories left
    it. *)
Theorem C8_missing_skipped_denied_raises
    (fs : FS) (cwd : string) (path : string) (pre post : list string) (d : string)
    (programs : gmap string string) :
  split ":" path = (pre ++ d :: post)%list →
  (os_iterdir fs cwd d = inl FileNotFoundError →
     parse_programs_in_path fs cwd path programs = scan_dirs fs cwd (pre ++ post) programs)
  ∧ (os_iterdir fs cwd d = inl PermissionError →
     ∀ programs', scan_dirs fs cwd pre programs = (Ok tt, programs') →
     parse_programs_in_path fs cwd path programs =
       (Raise (OSError PermissionError), programs')).
Proof.
  intros Hsplit. unfold parse_programs_in_path. rewrite Hsplit. split.
  - intros Hmissing. rewrite !scan_dirs_app.
    destruct (scan_dirs fs cwd pre programs) as [[[]|e] programs1]; [|reflexivity].
    apply scan_dirs_missing. exact Hmissing.
  - intros Hdenied programs' Hpre. rewrite scan_dirs_app, Hpre.
    apply scan_dirs_denied. exact Hdenied.
Qed.

(** C9 (amended).  For an argument that begins with a tilde, every tilde of
    the argument is replaced by the value of HOME, or by [/root] when HOME is
    unset or is the empty string, before the existence check; an argument
    that does not begin with a tilde is looked up as it is.  "Every tilde":
    the replacement turns each tilde into the home directory, wherever it
    stands, and leaves a text without tilde as it is. *)
Theorem C9_cd_tilde (path : string) (out err : TextIO) (w : World) :
  let home := match w_environ w !! "HOME" with
              | Some h => if String.eqb h EmptyString then "/root" else h
              | None => "/root"
              end in
  cd path out err w =
    cd_to (if startswith "~" path then replace "~" home path else path) out w
  ∧ (∀ a b, replace "~" home (a +:+ "~" +:+ b) =
            replace "~" home a +:+ home +:+ replace "~" home b)
  ∧ (∀ a, Forall (λ c, c ≠ "~"%char) (list_ascii_of_string a) → replace "~" home a = a).
Proof.
  intros home. split; [|split].
  - apply cd_run.
  - intros a b. apply replace_tilde_everywhere.
  - intros a Ha. apply replace_absent. exact Ha.
Qed.


End Claims.

(** * The claims on concrete lines *)

(** C1 on the line [echo 'a]. *)
Lemma C1_witness :
  ∃ msg, (msg = "No closing quotation" ∨ msg = "No escaped character")
         ∧ shlex_split "echo 'a" = Raise (ValueError msg)
         ∧ main Toy.programs ["echo 'a"; "echo b"] Toy.world0 =
             (Raise (ValueError msg), printed "$ " Toy.world0).
Proof.
  apply (C1_unterminated_quote_ends_the_loop Toy.programs "echo 'a" ["echo b"] Toy.world0).
  reflexivity.
Defined.

(** C1 as stated fails on [echo 'a]: the turn ends with the [ValueError],
    the loop does not go on, and [echo b] is never read. *)
Lemma C1_counterexample :
  lx_state (lex_run "echo 'a" lex_init) = InQuote "'"
  ∧ ¬ loop_continues Toy.programs "echo 'a" Toy.world0
  ∧ w_stdout (main Toy.programs ["echo 'a"; "echo b"] Toy.world0).2 = "$ "
  ∧ w_stderr (main Toy.programs ["echo 'a"; "echo b"] Toy.world0).2 = EmptyString.
Proof.
  split; [reflexivity|]. split; [|split; reflexivity].
  intros [w' H]. vm_compute in H. discriminate H.
Qed.

(** C2 on the line [echo hi > /nodir/x], where [/nodir] does not exist. *)
Lemma C2_witness :
  ∃ w', main Toy.programs ["echo hi > /nodir/x"; "echo b"] Toy.world0 =
          (Raise (OSError FileNotFoundError), w')
        ∧ w_stdout w' = w_stdout Toy.world0 +:+ "$ "
        ∧ w_stderr w' = w_stderr Toy.world0
        ∧ w_cwd w' = w_cwd Toy.world0.
Proof.
  apply (C2_unopenable_target_ends_the_loop Toy.programs "echo hi > /nodir/x"
           ["echo"; "hi"; ">"; "/nodir/x"] ["echo b"] Toy.world0 FileNotFoundError
           (frame0 ["echo"; "hi"; ">"; "/nodir/x"], printed "$ " Toy.world0)).
  - reflexivity.
  - vm_compute. reflexivity.
Defined.

(** C2 as stated fails on [echo hi > /nodir/x]: the directory of the target
    is missing, the [FileNotFoundError] of [open] ends the loop, and the
    error stream of the shell stays empty. *)
Lemma C2_counterexample :
  os_open Toy.disk "/home/u" "/nodir/x" ModeW = inl FileNotFoundError
  ∧ ¬ loop_continues Toy.programs "echo hi > /nodir/x" Toy.world0
  ∧ main Toy.programs ["echo hi > /nodir/x"; "echo b"] Toy.world0 =
      (Raise (OSError FileNotFoundError), printed "$ " Toy.world0).
Proof.
  split; [reflexivity|]. split; [|vm_compute; reflexivity].
  intros [w' H]. vm_compute in H. discriminate H.
Qed.




(** C5 on the tokens of [foo bar]. *)
Lemma C5_witness :
  handle_all Toy.programs ["foo"; "bar"] sys_stdout sys_stderr Toy.world0 =
    write sys_stdout (join " " ["foo"; "bar"] +:+ ": command not found" +:+ nl) Toy.world0
  ∧ ∀ line,
      shlex_split line = Ok ["foo"; "bar"] →
      Forall (λ op, op ∉ ["foo"; "bar"]) REDIRECTION_OPERATORS →
      handle_line Toy.programs line Toy.world0 =
        (Ok tt, printed (join " " ["foo"; "bar"] +:+ ": command not found" +:+ nl) Toy.world0).
Proof.
  apply (C5_unknown_command Toy.programs "foo" ["bar"] sys_stdout sys_stderr Toy.world0).
  - reflexivity.
  - vm_compute. reflexivity.
Defined.

(** C5 as stated fails on [foo  bar], typed with two spaces: what is
    written starts with the tokens joined by one space, not with the line. *)
Lemma C5_counterexample :
  handle_line Toy.programs "foo  bar" Toy.world0 =
    (Ok tt, printed ("foo bar: command not found" +:+ nl) Toy.world0)
  ∧ handle_line Toy.programs "foo  bar" Toy.world0 ≠
    (Ok tt, printed ("foo  bar" +:+ ": command not found" +:+ nl) Toy.world0).
Proof.
  split; [vm_compute; reflexivity|].
  intros H. vm_compute in H. discriminate H.
Qed.

(** C6 on [cd ~/nope] with HOME set to [/home/u]. *)
Lemma C6_witness :
  cd "~/nope" sys_stdout sys_stderr Toy.world0 =
    write sys_stdout ("cd: " +:+ "/home/u/nope" +:+ ": No such file or directory" +:+ nl)
      Toy.world0
  ∧ w_cwd (cd "~/nope" sys_stdout sys_stderr Toy.world0).2 = w_cwd Toy.world0.
Proof.
  apply (C6_cd_missing_directory "~/nope" "/home/u/nope" sys_stdout sys_stderr Toy.world0).
  - vm_compute. reflexivity.
  - reflexivity.
Defined.

(** C6 as stated fails on [cd ~/nope] with HOME set to [/home/u]: the
    message names [/home/u/nope], not the argument as it was given. *)
Lemma C6_counterexample :
  cd "~/nope" sys_stdout sys_stderr Toy.world0 =
    (Ok tt, printed ("cd: /home/u/nope: No such file or directory" +:+ nl) Toy.world0)
  ∧ cd "~/nope" sys_stdout sys_stderr Toy.world0 ≠
    (Ok tt, printed ("cd: ~/nope: No such file or directory" +:+ nl) Toy.world0).
Proof.
  split; [vm_compute; reflexivity|].
  intros H. vm_compute in H. discriminate H.
Qed.

(** C7 on a line of two spaces. *)
Lemma C7_witness :
  handle_line Toy.programs "  " Toy.world0 =
    (Ok tt, printed (": command not found" +:+ nl) Toy.world0).
Proof.
  apply (C7_empty_line_is_reported Toy.programs "  " Toy.world0).
  reflexivity.
Defined.

(** C7 as stated fails on the empty line: the turn is not a no-op, the
    shell's standard output has received [: command not found]. *)
Lemma C7_counterexample :
  shlex_split EmptyString = Ok []
  ∧ handle_line Toy.programs EmptyString Toy.world0 ≠ (Ok tt, Toy.world0)
  ∧ w_stdout (handle_line Toy.programs EmptyString Toy.world0).2 =
      ": command not found" +:+ nl.
Proof.
  split; [reflexivity|]. split; [|reflexivity].
  intros H. vm_compute in H. discriminate H.
Qed.

(** C8 on the search paths [/nowhere:/bin] and [/bin:/secret:/tmp]. *)
Lemma C8_witness :
  parse_programs_in_path (os := Toy.toy_os) Toy.disk "/" "/nowhere:/bin" ∅ =
    scan_dirs (os := Toy.toy_os) Toy.disk "/" ([] ++ ["/bin"]) ∅
  ∧ parse_programs_in_path (os := Toy.toy_os) Toy.disk "/" "/bin:/secret:/tmp" ∅ =
    (Raise (OSError PermissionError), Toy.programs).
Proof.
  split.
  - apply (C8_missing_skipped_denied_raises (os := Toy.toy_os) Toy.disk "/" "/nowhere:/bin"
             [] ["/bin"] "/nowhere" ∅); reflexivity.
  - apply (C8_missing_skipped_denied_raises (os := Toy.toy_os) Toy.disk "/" "/bin:/secret:/tmp"
             ["/bin"] ["/tmp"] "/secret" ∅).
    + reflexivity.
    + reflexivity.
    + vm_compute. reflexivity.
Defined.

(** C8 as stated fails on the search path [/secret:/bin], where [/secret]
    may not be listed: the scan raises [PermissionError] and [/bin] is never
    visited, whereas the missing [/nowhere] of [/nowhere:/bin] is skipped. *)
Lemma C8_counterexample :
  os_iterdir (OS := Toy.toy_os) Toy.disk "/" "/secret" = inl PermissionError
  ∧ parse_programs_in_path (os := Toy.toy_os) Toy.disk "/" "/secret:/bin" ∅ =
      (Raise (OSError PermissionError), ∅)
  ∧ parse_programs_in_path (os := Toy.toy_os) Toy.disk "/" "/secret:/bin" ∅ ≠
      scan_dirs (os := Toy.toy_os) Toy.disk "/" ["/bin"] ∅
  ∧ parse_programs_in_path (os := Toy.toy_os) Toy.disk "/" "/nowhere:/bin" ∅ =
      scan_dirs (os := Toy.toy_os) Toy.disk "/" ["/bin"] ∅.
Proof.
  split; [reflexivity|]. split; [reflexivity|]. split; [|reflexivity].
  intros H. vm_compute in H. discriminate H.
Qed.

(** C9 as stated fails when HOME is set to the empty string: the tilde of
    [~/tmp] is replaced by [/root], not by the (empty) value of HOME, so
    that [cd] looks up [/root/tmp] instead of [/tmp]. *)
Lemma C9_counterexample :
  w_environ Toy.world_empty_home !! "HOME" = Some EmptyString
  ∧ cd "~/tmp" sys_stdout sys_stderr Toy.world_empty_home =
      (Ok tt, printed ("cd: /root/tmp: No such file or directory" +:+ nl)
                Toy.world_empty_home)
  ∧ cd_to (replace "~" EmptyString "~/tmp") sys_stdout Toy.world_empty_home =
      (Ok tt, set_cwd "/tmp" Toy.world_empty_home)
  ∧ cd "~/tmp" sys_stdout sys_stderr Toy.world_empty_home ≠
      cd_to (replace "~" EmptyString "~/tmp") sys_stdout Toy.world_empty_home.
Proof.
  split; [vm_compute; reflexivity|]. split; [vm_compute; reflexivity|].
  split; [vm_compute; reflexivity|].
  intros H. vm_compute in H. discriminate H.
Qed.



(** * Further properties of the code *)

(** ** The scan of the search path, name by name *)

Section Scan_lookup_facts.
Context `{os : OS}.
Variables (fs : FS) (cwd : string).



Lemma scan_step_cases (dir : string) (programs : gmap string string) :
  (∃ programs', try_except_FileNotFoundError (scan_dir fs cwd dir) (mret tt) programs
                = (Ok tt, programs'))
  ∨ (∃ e, try_except_FileNotFoundError (scan_dir fs cwd dir) (mret tt) programs
          = (Raise e, programs)).
Proof.
  unfold try_except_FileNotFoundError, scan_dir.
  destruct (os_iterdir fs cwd dir) as [e|entries]; [destruct e|]; eauto.
Qed.







End Scan_lookup_facts.

Section Scan_properties.
Context `{os : OS}.




End Scan_properties.




(** ** The completion *)

Section Completion_facts.
Variable PROGRAMS_IN_PATH : gmap string string.

Lemma sorted_Sorted (l : list string) : Sorted String.le (sorted l).
Proof. apply (Sorted_merge_sort String.le). Qed.

Lemma sorted_Permutation (l : list string) : sorted l ≡ₚ l.
Proof. apply (merge_sort_Permutation String.le). Qed.

Lemma elem_of_sorted (x : string) (l : list string) : x ∈ sorted l ↔ x ∈ l.
Proof. rewrite (sorted_Permutation l). reflexivity. Qed.


Lemma elem_of_keys (x : string) :
  x ∈ (map_to_list PROGRAMS_IN_PATH).*1 ↔ is_Some (PROGRAMS_IN_PATH !! x).
Proof.
  rewrite list_elem_of_fmap. split.
  - intros ([k v] & -> & Hin). apply elem_of_map_to_list in Hin. simpl. eauto.
  - intros [v Hv]. exists (x, v). split; [reflexivity|].
    apply elem_of_map_to_list. exact Hv.
Qed.

Lemma elem_of_COMPLETIONS (x : string) :
  x ∈ COMPLETIONS PROGRAMS_IN_PATH ↔ known PROGRAMS_IN_PATH x.
Proof.
  unfold COMPLETIONS, known. rewrite elem_of_sorted, elem_of_app, elem_of_keys.
  reflexivity.
Qed.

Lemma elem_of_matches_of (text x : string) :
  x ∈ matches_of PROGRAMS_IN_PATH text ↔
  known PROGRAMS_IN_PATH x ∧ startswith text x = true.
Proof.
  unfold matches_of.
  rewrite elem_of_sorted, elem_of_remove_dups, list_elem_of_filter, elem_of_COMPLETIONS.
  tauto.
Qed.

Lemma NoDup_matches_of (text : string) : NoDup (matches_of PROGRAMS_IN_PATH text).
Proof.
  unfold matches_of. rewrite sorted_Permutation. apply NoDup_remove_dups.
Qed.

Lemma strictly_sorted (l : list string) :
  Sorted String.le l → NoDup l → StronglySorted string_lt l.
Proof.
  intros Hs Hn. apply (Sorted_StronglySorted String.le) in Hs.
  induction Hs as [|x l Hs IH Hall]; [constructor|].
  apply NoDup_cons in Hn as [Hx Hn].
  constructor; [apply IH; exact Hn|].
  rewrite Forall_forall in *. intros y Hy. split; [apply Hall; exact Hy|].
  intros ->. contradiction.
Qed.

Lemma matches_of_increasing (text : string) :
  StronglySorted string_lt (matches_of PROGRAMS_IN_PATH text).
Proof.
  apply strictly_sorted; [apply sorted_Sorted|apply NoDup_matches_of].
Qed.

Lemma StronglySorted_lookup_lt (l : list string) (i j : nat) (a b : string) :
  StronglySorted string_lt l → i < j → l !! i = Some a → l !! j = Some b → string_lt a b.
Proof.
  intros Hs. revert i j. induction Hs as [|x l Hs IH Hall]; intros i j Hij Ha Hb.
  - discriminate.
  - destruct j as [|j]; [lia|]. destruct i as [|i].
    + injection Ha as <-. simpl in Hb. rewrite Forall_forall in Hall.
      apply Hall. eapply list_elem_of_lookup_2. exact Hb.
    + simpl in *. eapply IH; [|exact Ha|exact Hb]. lia.
Qed.

Lemma getitem_nonneg (l : list string) (i : Z) :
  (0 ≤ i)%Z →
  getitem l i = match l !! Z.to_nat i with Some x => Ok x | None => Raise IndexError end.
Proof.
  intros Hi. unfold getitem.
  destruct (Z.ltb_spec i 0) as [?|_]; [lia|].
  destruct (Z.leb_spec 0 i) as [_|?]; [|lia]. simpl.
  destruct (Z.ltb_spec i (Z.of_nat (List.length l))) as [Hlt|Hge]; [reflexivity|].
  rewrite lookup_ge_None_2 by lia. reflexivity.
Qed.

(** For the states that [readline] passes, [complete] reads the list of
    matches at that position. *)
Lemma complete_run (text : string) (state : Z) :
  (0 ≤ state)%Z →
  complete PROGRAMS_IN_PATH text state =
  Ok ((λ x, if decide (List.length (matches_of PROGRAMS_IN_PATH text) = 1)
            then x +:+ " " else x)
        <$> matches_of PROGRAMS_IN_PATH text !! Z.to_nat state).
Proof.
  intros Hs. unfold complete. cbv zeta.
  set (matches := matches_of PROGRAMS_IN_PATH text).
  rewrite (getitem_nonneg _ _ Hs).
  destruct (Z.ltb_spec state (Z.of_nat (List.length matches))) as [Hlt|Hge].
  - destruct (lookup_lt_is_Some_2 matches (Z.to_nat state)) as [x Hx]; [lia|].
    rewrite Hx. destruct (decide (List.length matches = 1)); reflexivity.
  - rewrite lookup_ge_None_2 by lia.
    destruct (decide (List.length matches = 1)); reflexivity.
Qed.

Lemma NoDup_singleton_list (l : list string) (x : string) :
  NoDup l → (∀ y, y ∈ l ↔ y = x) → l = [x].
Proof.
  intros Hn Hl. destruct l as [|a l].
  - exfalso. eapply not_elem_of_nil. apply Hl. reflexivity.
  - assert (a = x) as -> by (apply Hl; apply elem_of_cons; auto).
    destruct l as [|b l]; [reflexivity|].
    assert (b = x) as -> by (apply Hl; rewrite !elem_of_cons; auto).
    apply NoDup_cons in Hn as [Hx _]. exfalso. apply Hx. apply elem_of_cons. auto.
Qed.

End Completion_facts.

Section Completion_properties.
Variable PROGRAMS_IN_PATH : gmap string string.

(** X4.  For every state that [readline] passes (0, 1, 2, ...), [complete]
    raises nothing, and a candidate it offers is a builtin or a key of the
    dictionary that starts with the text typed, possibly followed by one
    space. *)
Theorem complete_offers_known_names (text : string) (state : Z) :
  (0 ≤ state)%Z →
  ∃ answer, complete PROGRAMS_IN_PATH text state = Ok answer
    ∧ ∀ c, answer = Some c →
           ∃ x, known PROGRAMS_IN_PATH x ∧ startswith text x = true
                ∧ (c = x ∨ c = x +:+ " ").
Proof.
  intros Hs. rewrite (complete_run _ _ _ Hs). eexists. split; [reflexivity|].
  intros c Hc. apply fmap_Some in Hc as (x & Hx & ->).
  apply list_elem_of_lookup_2, elem_of_matches_of in Hx as [Hk Hp].
  exists x. split; [exact Hk|]. split; [exact Hp|].
  destruct (decide _); auto.
Qed.

(** X5.  Every builtin and every key of the dictionary that starts with the
    text typed is offered at some state, as it is or followed by one
    space. *)
Theorem complete_offers_every_match (text x : string) :
  known PROGRAMS_IN_PATH x →
  startswith text x = true →
  ∃ state, (0 ≤ state)%Z
    ∧ (complete PROGRAMS_IN_PATH text state = Ok (Some x)
       ∨ complete PROGRAMS_IN_PATH text state = Ok (Some (x +:+ " "))).
Proof.
  intros Hk Hp.
  assert (x ∈ matches_of PROGRAMS_IN_PATH text) as Hin
    by (apply elem_of_matches_of; auto).
  apply list_elem_of_lookup_1 in Hin as [i Hi].
  exists (Z.of_nat i). split; [lia|].
  rewrite complete_run by lia. rewrite Nat2Z.id, Hi. simpl.
  destruct (decide _); auto.
Qed.

(** X6.  The candidates are enumerated without repetition and in strictly
    increasing order: there is a number n of them such that the states below
    n give a candidate, the states from n on give [None], and of two
    candidates the one offered at the smaller state is the smaller
    string. *)
Theorem complete_enumerates_in_order (text : string) :
  ∃ n : nat,
    (∀ state, (0 ≤ state < Z.of_nat n)%Z →
              ∃ c, complete PROGRAMS_IN_PATH text state = Ok (Some c))
    ∧ (∀ state, (Z.of_nat n ≤ state)%Z →
                complete PROGRAMS_IN_PATH text state = Ok None)
    ∧ (∀ i j a b, (0 ≤ i < j)%Z →
                  complete PROGRAMS_IN_PATH text i = Ok (Some a) →
                  complete PROGRAMS_IN_PATH text j = Ok (Some b) →
                  string_lt a b).
Proof.
  exists (List.length (matches_of PROGRAMS_IN_PATH text)). split; [|split].
  - intros state Hs. rewrite complete_run by lia.
    destruct (lookup_lt_is_Some_2 (matches_of PROGRAMS_IN_PATH text) (Z.to_nat state))
      as [x Hx]; [lia|].
    rewrite Hx. simpl. eauto.
  - intros state Hs. rewrite complete_run by lia.
    rewrite lookup_ge_None_2 by lia. reflexivity.
  - intros i j a b Hij. rewrite !complete_run by lia.
    intros [= Ha] [= Hb].
    apply fmap_Some in Ha as (x & Hx & ->). apply fmap_Some in Hb as (y & Hy & ->).
    destruct (decide (List.length (matches_of PROGRAMS_IN_PATH text) = 1)) as [Hone|_].
    + apply lookup_lt_Some in Hx, Hy. lia.
    + apply (StronglySorted_lookup_lt (matches_of PROGRAMS_IN_PATH text)
               (Z.to_nat i) (Z.to_nat j));
        [apply matches_of_increasing|lia|exact Hx|exact Hy].
Qed.

(** X7.  When exactly one known name starts with the text, it is offered
    at state 0 followed by one space, and nothing is offered at state 1. *)
Theorem complete_single_match_gets_a_space (text x : string) :
  known PROGRAMS_IN_PATH x →
  startswith text x = true →
  (∀ y, known PROGRAMS_IN_PATH y → startswith text y = true → y = x) →
  complete PROGRAMS_IN_PATH text 0 = Ok (Some (x +:+ " "))
  ∧ complete PROGRAMS_IN_PATH text 1 = Ok None.
Proof.
  intros Hk Hp Honly.
  assert (matches_of PROGRAMS_IN_PATH text = [x]) as Hm.
  { apply NoDup_singleton_list; [apply NoDup_matches_of|].
    intros y. rewrite elem_of_matches_of. split.
    - intros [? ?]. apply Honly; assumption.
    - intros ->. auto. }
  rewrite !complete_run by lia. rewrite Hm. split; reflexivity.
Qed.

(** X8.  When two different known names start with the text, every
    candidate is offered as it is, without the space: it is itself a known
    name that starts with the text. *)
Theorem complete_several_matches_get_no_space (text x y c : string) (state : Z) :
  known PROGRAMS_IN_PATH x → startswith text x = true →
  known PROGRAMS_IN_PATH y → startswith text y = true →
  x ≠ y →
  (0 ≤ state)%Z →
  complete PROGRAMS_IN_PATH text state = Ok (Some c) →
  known PROGRAMS_IN_PATH c ∧ startswith text c = true.
Proof.
  intros Hkx Hpx Hky Hpy Hne Hs. rewrite complete_run by lia.
  intros [= Hc]. apply fmap_Some in Hc as (z & Hz & ->).
  destruct (decide (List.length (matches_of PROGRAMS_IN_PATH text) = 1)) as [Hone|_].
  - exfalso.
    assert (x ∈ matches_of PROGRAMS_IN_PATH text) as Hx by (apply elem_of_matches_of; auto).
    assert (y ∈ matches_of PROGRAMS_IN_PATH text) as Hy by (apply elem_of_matches_of; auto).
    destruct (matches_of PROGRAMS_IN_PATH text) as [|a [|b l]]; try discriminate.
    apply list_elem_of_singleton in Hx, Hy. congruence.
  - apply elem_of_matches_of. eapply list_elem_of_lookup_2. exact Hz.
Qed.

End Completion_properties.

Section Display_properties.
Context `{os : OS}.


End Display_properties.

(** X4 on the text [ls] and state 1, with [ls] and [lsblk] on the path. *)
Lemma complete_offers_known_names_witness :
  ∃ answer, complete programs2 "ls" 1 = Ok answer
    ∧ ∀ c, answer = Some c →
           ∃ x, known programs2 x ∧ startswith "ls" x = true ∧ (c = x ∨ c = x +:+ " ").
Proof. apply (complete_offers_known_names programs2 "ls" 1). lia. Defined.

(** X5 on the text [ls] and the name [lsblk]. *)
Lemma complete_offers_every_match_witness :
  ∃ state, (0 ≤ state)%Z
    ∧ (complete programs2 "ls" state = Ok (Some "lsblk")
       ∨ complete programs2 "ls" state = Ok (Some ("lsblk" +:+ " "))).
Proof.
  apply (complete_offers_every_match programs2 "ls" "lsblk").
  - right. vm_compute. eauto.
  - reflexivity.
Defined.

(** X7 on the text [ec]: [echo] is a builtin and a program of the path, and
    is the only match. *)
Lemma complete_single_match_gets_a_space_witness :
  complete programs2 "ec" 0 = Ok (Some ("echo" +:+ " "))
  ∧ complete programs2 "ec" 1 = Ok None.
Proof.
  apply (complete_single_match_gets_a_space programs2 "ec" "echo").
  - left. apply (bool_decide_unpack _). vm_compute. exact I.
  - reflexivity.
  - intros y Hy Hp.
    assert (y ∈ matches_of programs2 "ec") as Hin by (apply elem_of_matches_of; auto).
    vm_compute in Hin. apply list_elem_of_singleton in Hin. exact Hin.
Defined.

(** X8 on the text [ls] at state 0. *)
Lemma complete_several_matches_get_no_space_witness :
  known programs2 "ls" ∧ startswith "ls" "ls" = true.
Proof.
  apply (complete_several_matches_get_no_space programs2 "ls" "ls" "lsblk" "ls" 0).
  - right. vm_compute. eauto.
  - reflexivity.
  - right. vm_compute. eauto.
  - reflexivity.
  - discriminate.
  - lia.
  - vm_compute. reflexivity.
Defined.


(** ** Dispatch *)

Section Dispatch_facts.
Context `{os : OS}.
Variable PROGRAMS_IN_PATH : gmap string string.

(** Tokens that fit no builtin pattern reach the last two cases. *)
Lemma handle_all_fallthrough (c : string) (s : list string) (out err : TextIO) :
  builtin_form (c :: s) = false →
  handle_all PROGRAMS_IN_PATH (c :: s) out err =
  external_or_unknown PROGRAMS_IN_PATH (c :: s) out err.
Proof.
  unfold builtin_form, handle_all. intros Hform.
  destruct (String.eqb c "echo"); [discriminate|].
  destruct s as [|a [|b s']]; simpl in Hform.
  - destruct (String.eqb c "pwd"); [|reflexivity].
    rewrite !andb_false_r in Hform. discriminate.
  - destruct (String.eqb c "type"); [discriminate|].
    destruct (String.eqb c "exit") eqn:Eexit; simpl.
    + destruct (String.eqb_spec a "0") as [->|Hne].
      * rewrite bool_decide_eq_true_2 in Hform by reflexivity. discriminate.
      * destruct (String.eqb c "cd") eqn:Ecd; [|reflexivity].
        apply String.eqb_eq in Eexit, Ecd. congruence.
    + destruct (String.eqb c "cd"); [|reflexivity].
      rewrite !orb_true_r in Hform. discriminate.
  - reflexivity.
Qed.

Lemma not_builtin_name_form (c : string) (s : list string) :
  contains c SHELL_BUILTINS = false → builtin_form (c :: s) = false.
Proof.
  unfold contains, SHELL_BUILTINS. intros H. apply bool_decide_eq_false in H.
  rewrite !not_elem_of_cons in H. destruct H as (H1 & H2 & H3 & H4 & H5 & _).
  unfold builtin_form.
  rewrite (proj2 (String.eqb_neq c "echo")), (proj2 (String.eqb_neq c "type")),
    (proj2 (String.eqb_neq c "exit")), (proj2 (String.eqb_neq c "pwd")),
    (proj2 (String.eqb_neq c "cd")) by assumption.
  reflexivity.
Qed.

Lemma external_or_unknown_found (c p : string) (s : list string) (out err : TextIO) :
  PROGRAMS_IN_PATH !! c = Some p →
  external_or_unknown PROGRAMS_IN_PATH (c :: s) out err = popen_wait (c :: s) out err.
Proof. intros H. unfold external_or_unknown. rewrite H. reflexivity. Qed.

Lemma external_or_unknown_missing (c : string) (s : list string) (out err : TextIO) :
  PROGRAMS_IN_PATH !! c = None →
  external_or_unknown PROGRAMS_IN_PATH (c :: s) out err =
  write out (join " " (c :: s) +:+ ": command not found" +:+ nl).
Proof. intros H. unfold external_or_unknown. rewrite H. reflexivity. Qed.

End Dispatch_facts.

Section Dispatch_properties.
Context `{os : OS}.
Variable PROGRAMS_IN_PATH : gmap string string.

(** X10.  Tokens that fit no builtin pattern and whose first word is a key
    of the dictionary start that program with the whole token list as
    argument vector, also when the first word is the name of a builtin
    ([pwd -P], [cd] alone, [exit 1]); what the child writes goes to the two
    streams of the command, and the working directory and the file objects
    are as the child process leaves the file system, nothing else. *)
Theorem path_program_is_run
    (c p : string) (s : list string) (out err : TextIO) (w : World)
    (fs' : FS) (child_out child_err : string) :
  builtin_form (c :: s) = false →
  PROGRAMS_IN_PATH !! c = Some p →
  os_popen_wait (w_fs w) (w_cwd w) (c :: s) = inr (fs', child_out, child_err) →
  handle_all PROGRAMS_IN_PATH (c :: s) out err w =
    (write out child_out ;; write err child_err) (set_fs fs' w).
Proof.
  intros Hform Hp Hrun.
  rewrite (handle_all_fallthrough _ _ _ _ _ Hform).
  rewrite (external_or_unknown_found _ _ _ _ _ _ Hp).
  unfold popen_wait. rewrite Hrun. reflexivity.
Qed.

(** X11.  When the program cannot be started, the [OSError] of [Popen] is
    not caught: on a line without redirection it ends the loop, the shell
    having written nothing but the prompt. *)
Theorem failed_spawn_ends_the_loop
    (line c p : string) (s : list string) (stdin : list string) (w : World) (e : oserror) :
  shlex_split line = Ok (c :: s) →
  Forall (λ op, op ∉ c :: s) REDIRECTION_OPERATORS →
  builtin_form (c :: s) = false →
  PROGRAMS_IN_PATH !! c = Some p →
  os_popen_wait (w_fs w) (w_cwd w) (c :: s) = inl e →
  main PROGRAMS_IN_PATH (line :: stdin) w = (Raise (OSError e), printed "$ " w).
Proof.
  intros Hsplit Hops Hform Hp Hrun.
  rewrite main_cons, (handle_line_plain _ _ _ _ Hsplit Hops).
  rewrite (handle_all_fallthrough _ _ _ _ _ Hform).
  rewrite (external_or_unknown_found _ _ _ _ _ _ Hp).
  unfold popen_wait. simpl. rewrite Hrun. reflexivity.
Qed.

(** X12.  [type] and the dispatch agree on a name that is not a builtin:
    when [type] reports a path, a command line that starts with the name
    starts the program, whatever its arguments; when [type] reports [not
    found], such a line is answered by [command not found].  For the name of
    a builtin, [type] says so without looking at the dictionary. *)
Theorem type_agrees_with_dispatch (c : string) (out err : TextIO) (w : World) :
  if contains c SHELL_BUILTINS then
    type_command PROGRAMS_IN_PATH c out err w =
      write out (c +:+ " is a shell builtin" +:+ nl) w
  else
    match PROGRAMS_IN_PATH !! c with
    | Some p =>
        type_command PROGRAMS_IN_PATH c out err w = write out (c +:+ " is " +:+ p +:+ nl) w
        ∧ ∀ args, handle_all PROGRAMS_IN_PATH (c :: args) out err w =
                  popen_wait (c :: args) out err w
    | None =>
        type_command PROGRAMS_IN_PATH c out err w = write out (c +:+ ": not found" +:+ nl) w
        ∧ ∀ args, handle_all PROGRAMS_IN_PATH (c :: args) out err w =
                  write out (join " " (c :: args) +:+ ": command not found" +:+ nl) w
    end.
Proof.
  unfold type_command.
  destruct (contains c SHELL_BUILTINS) eqn:Hb; [reflexivity|].
  destruct (PROGRAMS_IN_PATH !! c) as [p|] eqn:Hp; (split; [reflexivity|]); intros args.
  - rewrite (handle_all_fallthrough _ _ _ _ _ (not_builtin_name_form c args Hb)).
    rewrite (external_or_unknown_found _ _ _ _ _ _ Hp). reflexivity.
  - rewrite (handle_all_fallthrough _ _ _ _ _ (not_builtin_name_form c args Hb)).
    rewrite (external_or_unknown_missing _ _ _ _ _ Hp). reflexivity.
Qed.

(** X13.  The builtins [echo], [exit 0], [pwd] and [cd] come before the
    path: in their builtin form they do the same whatever the dictionary
    holds, also when a program of that name is on the path. *)
Theorem builtins_shadow_the_path
    (other : gmap string string) (c : string) (s : list string) (out err : TextIO) :
  builtin_form (c :: s) = true →
  c ≠ "type" →
  handle_all PROGRAMS_IN_PATH (c :: s) out err = handle_all other (c :: s) out err.
Proof.
  unfold builtin_form, handle_all. intros Hform Htype.
  apply String.eqb_neq in Htype. rewrite Htype in *.
  destruct (String.eqb c "echo"); [reflexivity|].
  destruct s as [|a [|b s']].
  - destruct (String.eqb c "pwd"); [reflexivity|].
    destruct (String.eqb c "exit"), (String.eqb c "cd"); vm_compute in Hform; discriminate.
  - destruct (String.eqb c "cd").
    + destruct (String.eqb c "exit" && String.eqb a "0"); reflexivity.
    + destruct (String.eqb c "exit"); simpl.
      * destruct (String.eqb_spec a "0") as [->|Hne]; [reflexivity|].
        simpl in Hform. rewrite bool_decide_eq_false_2 in Hform by congruence.
        rewrite !andb_false_r in Hform. discriminate.
      * simpl in Hform. rewrite !andb_false_r in Hform. discriminate.
  - exfalso. simpl in Hform.
    destruct (String.eqb c "exit"), (String.eqb c "pwd"), (String.eqb c "cd");
      simpl in Hform; rewrite ?bool_decide_eq_false_2 in Hform by (simpl; lia || congruence);
      simpl in Hform; discriminate.
Qed.

End Dispatch_properties.

(** X10 on [exit 1] with a program called [exit] on the path, which prints
    its argument vector. *)
Lemma path_program_is_run_witness :
  handle_all (os := echoing_os) shadowed_programs ["exit"; "1"] sys_stdout sys_stderr world3 =
    (Ok tt, printed ("exit 1" +:+ nl) world3).
Proof.
  rewrite (path_program_is_run (os := echoing_os) shadowed_programs "exit" "/opt/bin/exit"
             ["1"] sys_stdout sys_stderr world3 disk3 ("exit 1" +:+ nl) EmptyString).
  - vm_compute. reflexivity.
  - reflexivity.
  - vm_compute. reflexivity.
  - vm_compute. reflexivity.
Defined.

(** X11 on the line [gone now], [/opt/bin/gone] having been removed after
    the dictionary was filled. *)
Lemma failed_spawn_ends_the_loop_witness :
  main (os := echoing_os) stale_programs ["gone now"; "ls"] world2 =
    (Raise (OSError FileNotFoundError), printed "$ " world2).
Proof.
  apply (failed_spawn_ends_the_loop (os := echoing_os) stale_programs "gone now" "gone"
           "/opt/bin/gone" ["now"] ["ls"] world2 FileNotFoundError).
  - vm_compute. reflexivity.
  - apply (bool_decide_unpack _). vm_compute. exact I.
  - reflexivity.
  - vm_compute. reflexivity.
  - vm_compute. reflexivity.
Defined.

(** X13 on [pwd] with a program called [pwd] on the path. *)
Lemma builtins_shadow_the_path_witness :
  handle_all (os := echoing_os) shadowed_programs ["pwd"] sys_stdout sys_stderr =
  handle_all (os := echoing_os) ∅ ["pwd"] sys_stdout sys_stderr.
Proof.
  apply (builtins_shadow_the_path (os := echoing_os) shadowed_programs ∅ "pwd" []
           sys_stdout sys_stderr).
  - reflexivity.
  - discriminate.
Defined.

(** ** A line with one redirection *)

Section Single_redirection_facts.
Context `{os : OS}.
Variable PROGRAMS_IN_PATH : gmap string string.

(** The redirection of a token list in which [op] occurs once, before the
    file name [name], and no other operator token occurs: the operator and
    the name are taken out and the stream of the operator is rebound to a
    file object opened in the mode of the operator. *)
Lemma extract_single (op name : string) (pre post : list string) (w : World) (fs' : FS) :
  op ∈ REDIRECTION_OPERATORS →
  Forall (λ x, x ∉ (pre ++ name :: post)%list) REDIRECTION_OPERATORS →
  os_open (w_fs w) (w_cwd w) name (operator_mode op) = inr fs' →
  extract_redirections (frame0 (pre ++ op :: name :: post), w) =
    (Ok tt,
     (rebind (operator_channel op) (file_object (List.length (w_files w))) (pre ++ post)
        (frame0 (pre ++ op :: name :: post)),
      opened name (operator_mode op) fs' w)).
Proof.
  intros Hop Hnone Hopen.
  assert (∀ x, x ∈ REDIRECTION_OPERATORS → (x ∉ pre) ∧ x ≠ name ∧ (x ∉ post)) as Hx.
  { intros x Hin. rewrite Forall_forall in Hnone. specialize (Hnone x Hin).
    rewrite not_elem_of_app, not_elem_of_cons in Hnone. tauto. }
  assert (∀ x, x ∈ REDIRECTION_OPERATORS → x ≠ op →
               contains x (cmds (frame0 (pre ++ op :: name :: post))) = false) as Hbefore.
  { intros x Hin Hne. destruct (Hx x Hin) as (H1 & H2 & H3).
    apply contains_false. simpl.
    rewrite not_elem_of_app, !not_elem_of_cons. auto. }
  assert (contains op (cmds (frame0 (pre ++ op :: name :: post))) = true) as Hsame.
  { apply contains_true. simpl. apply elem_of_app. right. apply elem_of_cons. auto. }
  assert (∀ x ch f fr, x ∈ REDIRECTION_OPERATORS →
            contains x (cmds (rebind ch f (pre ++ post) fr)) = false) as Hafter.
  { intros x ch f fr Hin. destruct (Hx x Hin) as (H1 & H2 & H3).
    apply contains_false. destruct ch; simpl; rewrite not_elem_of_app; auto. }
  assert (∀ ch, redirect op (operator_mode op) ch (frame0 (pre ++ op :: name :: post), w) =
            (Ok tt,
             (rebind ch (file_object (List.length (w_files w))) (pre ++ post)
                (frame0 (pre ++ op :: name :: post)),
              opened name (operator_mode op) fs' w))) as Hfire.
  { intros ch. rewrite redirect_run. simpl.
    rewrite (index_fresh op pre (name :: post)) by (apply (Hx op Hop)).
    rewrite lookup_app_r by lia.
    replace (List.length pre + 1 - List.length pre) with 1 by lia. simpl.
    rewrite Hopen. rewrite slice_out. reflexivity. }
  unfold extract_redirections, REDIRECTION_OPERATORS in *.
  repeat (apply elem_of_cons in Hop as [->|Hop]);
    [| | | | | |apply elem_of_nil in Hop; contradiction];
    change (operator_channel _) with Out || change (operator_channel _) with Err;
    (change (operator_mode _) with ModeW in * || change (operator_mode _) with ModeA in *);
    repeat first
      [ rewrite bind_run
      | rewrite if_elif_run
      | rewrite if_only_run
      | rewrite Hafter by (apply (bool_decide_unpack _); vm_compute; exact I)
      | rewrite Hsame
      | rewrite Hbefore by
          (first [ discriminate | apply (bool_decide_unpack _); vm_compute; exact I ])
      | rewrite Hfire ];
    reflexivity.
Qed.

(** The turn of a line whose redirections have been extracted: the command
    runs with the streams of the frame, and the [finally] block closes the
    flagged ones afterwards, however the command ends. *)
Lemma handle_line_extracted (line : string) (cmds0 : list string)
    (w w1 : World) (fr : Frame) :
  shlex_split line = Ok cmds0 →
  extract_redirections (frame0 cmds0, w) = (Ok tt, (fr, w1)) →
  handle_line PROGRAMS_IN_PATH line w =
    (let '(r, w2) := handle_all PROGRAMS_IN_PATH (cmds fr) (out fr) (err fr) w1 in
     (r, set_files (λ l, close_flagged (close_err fr) (err fr)
                           (close_flagged (close_out fr) (out fr) l)) w2)).
Proof.
  intros Hsplit Hext.
  rewrite (handle_line_split_ok _ _ _ _ Hsplit).
  unfold with_frame, try_finally, try_body.
  rewrite (bind_ok _ _ _ _ _ Hext).
  rewrite bind_run. simpl. unfold lift_snd.
  destruct (handle_all PROGRAMS_IN_PATH (cmds fr) (out fr) (err fr) w1) as [r w2].
  rewrite finally_block_files. reflexivity.
Qed.

End Single_redirection_facts.

Section Single_redirection_properties.
Context `{os : OS}.
Variable PROGRAMS_IN_PATH : gmap string string.

(** X14.  A line with one redirection, wherever it stands in the line:
    when [op] is the only operator token and is followed by a file name that
    can be opened, the file is opened in the mode of the operator (truncate
    for [>], [1>], [2>], append for [>>], [1>>], [2>>]), the other tokens are
    run with the output stream (or the error stream, for [2>] and [2>>])
    rebound to it, the other stream being the shell's own, and the file is
    closed when the command has ended, with or without an exception. *)
Theorem single_redirection
    (line op name : string) (pre post : list string) (w : World) (fs' : FS) :
  shlex_split line = Ok (pre ++ op :: name :: post)%list →
  op ∈ REDIRECTION_OPERATORS →
  Forall (λ x, x ∉ (pre ++ name :: post)%list) REDIRECTION_OPERATORS →
  os_open (w_fs w) (w_cwd w) name (operator_mode op) = inr fs' →
  handle_line PROGRAMS_IN_PATH line w =
    (let n := List.length (w_files w) in
     let '(r, w') := handle_all PROGRAMS_IN_PATH (pre ++ post)
                       (stream_out (operator_channel op) n)
                       (stream_err (operator_channel op) n)
                       (opened name (operator_mode op) fs' w) in
     (r, closed n w')).
Proof.
  intros Hsplit Hop Hnone Hopen.
  rewrite (handle_line_extracted _ _ _ _ _ _ Hsplit
             (extract_single op name pre post w fs' Hop Hnone Hopen)).
  destruct (operator_channel op); simpl;
    match goal with |- context [handle_all ?a ?b ?c ?d ?e] =>
      destruct (handle_all a b c d e) as [r w'] end;
    reflexivity.
Qed.

(** X15.  [echo] with one redirection.  With an operator for the output,
    the shell's own output receives nothing and the file object holds the
    words joined by single spaces and a newline; with an operator for the
    error stream, the text goes to the shell's output and the file object
    stays empty.  In both cases the file object is closed when the turn
    ends. *)
Theorem echo_with_one_redirection
    (line op name : string) (pre post s : list string) (w : World) (fs' : FS) :
  shlex_split line = Ok (pre ++ op :: name :: post)%list →
  (pre ++ post)%list = "echo" :: s →
  op ∈ REDIRECTION_OPERATORS →
  Forall (λ x, x ∉ (pre ++ name :: post)%list) REDIRECTION_OPERATORS →
  os_open (w_fs w) (w_cwd w) name (operator_mode op) = inr fs' →
  handle_line PROGRAMS_IN_PATH line w =
    (Ok tt,
     match operator_channel op with
     | Out =>
         set_files (λ fl, (fl ++ [File name (operator_mode op) (join " " s +:+ nl) true])%list)
           (set_fs fs' w)
     | Err =>
         set_files (λ fl, (fl ++ [File name (operator_mode op) EmptyString true])%list)
           (set_fs fs' (printed (join " " s +:+ nl) w))
     end).
Proof.
  intros Hsplit Hecho Hop Hnone Hopen.
  rewrite (handle_line_extracted _ _ _ _ _ _ Hsplit
             (extract_single op name pre post w fs' Hop Hnone Hopen)).
  destruct (operator_channel op); simpl; rewrite Hecho; unfold handle_all; simpl.
  - rewrite lookup_app_r by lia. rewrite Nat.sub_diag. simpl. f_equal.
    destruct w as [f c e o r fl]. unfold set_files, set_fs, opened. simpl. f_equal.
    replace (List.length fl) with (List.length fl + 0) by lia.
    rewrite !alter_app_r. reflexivity.
  - f_equal. destruct w as [f c e o r fl]. unfold set_files, set_fs, opened, printed.
    simpl. f_equal.
    replace (List.length fl) with (List.length fl + 0) by lia.
    rewrite !alter_app_r. reflexivity.
Qed.

(** X16.  [exit 0] ends the loop with [SystemExit(0)], whatever the
    dictionary holds, also when a program of the name [exit] is on the
    path; the shell has written the prompt and nothing else, and the lines
    that follow are not read. *)
Theorem exit_0_ends_the_loop (line : string) (stdin : list string) (w : World) :
  shlex_split line = Ok ["exit"; "0"] →
  main PROGRAMS_IN_PATH (line :: stdin) w = (Raise (SystemExit 0), printed "$ " w).
Proof.
  intros Hsplit. rewrite main_cons.
  rewrite (handle_line_plain _ _ _ _ Hsplit).
  - reflexivity.
  - apply (bool_decide_unpack _). vm_compute. exact I.
Qed.

(** X17.  [exit 0] on a line with one redirection: the file is opened all
    the same (and so created if missing, and truncated by [>], [1>] and
    [2>]), nothing is written to it, and the [finally] block closes it while
    [SystemExit(0)] leaves the loop. *)
Theorem exit_0_closes_its_redirection
    (line op name : string) (pre post stdin : list string) (w : World) (fs' : FS) :
  shlex_split line = Ok (pre ++ op :: name :: post)%list →
  (pre ++ post)%list = ["exit"; "0"] →
  op ∈ REDIRECTION_OPERATORS →
  Forall (λ x, x ∉ (pre ++ name :: post)%list) REDIRECTION_OPERATORS →
  os_open (w_fs w) (w_cwd w) name (operator_mode op) = inr fs' →
  main PROGRAMS_IN_PATH (line :: stdin) w =
    (Raise (SystemExit 0),
     set_files (λ fl, (fl ++ [File name (operator_mode op) EmptyString true])%list)
       (set_fs fs' (printed "$ " w))).
Proof.
  intros Hsplit Hexit Hop Hnone Hopen.
  rewrite main_cons.
  rewrite (handle_line_extracted _ _ _ _ _ _ Hsplit
             (extract_single op name pre post (printed "$ " w) fs' Hop Hnone Hopen)).
  destruct (operator_channel op); simpl; rewrite Hexit; simpl; f_equal;
    destruct w as [f c e o r fl]; unfold set_files, set_fs, opened, printed; simpl;
    f_equal;
    replace (List.length fl) with (List.length fl + 0) by lia;
    rewrite !alter_app_r; reflexivity.
Qed.

End Single_redirection_properties.

(** X14 on the line [ls > /tmp/out -l], where [ls] prints its arguments. *)
Lemma single_redirection_witness :
  handle_line (os := echoing_os) programs2 "ls > /tmp/out -l" world2 =
    (Ok tt,
     mkWorld (os := echoing_os) (("/tmp/out", Toy.Reg false) :: disk2) "/home/u"
       Toy.environ EmptyString EmptyString
       [File "/tmp/out" ModeW ("ls -l" +:+ nl) true]).
Proof.
  rewrite (single_redirection (os := echoing_os) programs2 "ls > /tmp/out -l" ">"
             "/tmp/out" ["ls"] ["-l"] world2 (("/tmp/out", Toy.Reg false) :: disk2)).
  - vm_compute. reflexivity.
  - vm_compute. reflexivity.
  - apply (bool_decide_unpack _). vm_compute. exact I.
  - apply (bool_decide_unpack _). vm_compute. exact I.
  - vm_compute. reflexivity.
Defined.

(** X15 on the line [echo hello 2>> /tmp/log world]. *)
Lemma echo_with_one_redirection_witness :
  handle_line (os := Toy.toy_os) Toy.programs "echo hello 2>> /tmp/log world" Toy.world0 =
    (Ok tt,
     mkWorld (os := Toy.toy_os) (("/tmp/log", Toy.Reg false) :: Toy.disk) "/home/u"
       Toy.environ ("hello world" +:+ nl) EmptyString
       [File "/tmp/log" ModeA EmptyString true]).
Proof.
  rewrite (echo_with_one_redirection (os := Toy.toy_os) Toy.programs
             "echo hello 2>> /tmp/log world" "2>>" "/tmp/log" ["echo"; "hello"] ["world"]
             ["hello"; "world"] Toy.world0 (("/tmp/log", Toy.Reg false) :: Toy.disk)).
  - vm_compute. reflexivity.
  - vm_compute. reflexivity.
  - reflexivity.
  - apply (bool_decide_unpack _). vm_compute. exact I.
  - apply (bool_decide_unpack _). vm_compute. exact I.
  - vm_compute. reflexivity.
Defined.

(** X16 with a program called [exit] on the path. *)
Lemma exit_0_ends_the_loop_witness :
  main (os := echoing_os) shadowed_programs ["exit 0"; "echo never"] world3 =
    (Raise (SystemExit 0), printed "$ " world3).
Proof.
  apply (exit_0_ends_the_loop (os := echoing_os) shadowed_programs "exit 0"
           ["echo never"] world3).
  vm_compute. reflexivity.
Defined.

(** X17 on the line [exit 0 > /tmp/out]. *)
Lemma exit_0_closes_its_redirection_witness :
  main (os := Toy.toy_os) Toy.programs ["exit 0 > /tmp/out"; "echo never"] Toy.world0 =
    (Raise (SystemExit 0),
     mkWorld (os := Toy.toy_os) (("/tmp/out", Toy.Reg false) :: Toy.disk) "/home/u"
       Toy.environ "$ " EmptyString [File "/tmp/out" ModeW EmptyString true]).
Proof.
  rewrite (exit_0_closes_its_redirection (os := Toy.toy_os) Toy.programs
             "exit 0 > /tmp/out" ">" "/tmp/out" ["exit"; "0"] [] ["echo never"]
             Toy.world0 (("/tmp/out", Toy.Reg false) :: Toy.disk)).
  - vm_compute. reflexivity.
  - vm_compute. reflexivity.
  - reflexivity.
  - apply (bool_decide_unpack _). vm_compute. exact I.
  - apply (bool_decide_unpack _). vm_compute. exact I.
  - vm_compute. reflexivity.
Defined.

(** ** The tokenizer on plain and quoted words *)

Lemma string_app_nil_r (s : string) : s +:+ EmptyString = s.
Proof. induction s as [|c s IH]; [reflexivity|]. rewrite string_app_cons, IH. reflexivity. Qed.

Lemma plain_char_inv (c : ascii) :
  plain_char c = true → is_whitespace c = false ∧ is_quote c = false ∧ is_escape c = false.
Proof.
  unfold plain_char. rewrite !andb_true_iff, !negb_true_iff. tauto.
Qed.

(** Inside a word, plain characters are added to the token. *)
Lemma lex_run_plain (s : string) :
  plain_chars s = true →
  ∀ tok quoted toks,
    lex_run s (Lexer InWord tok quoted toks) = Lexer InWord (tok +:+ s) quoted toks.
Proof.
  induction s as [|c s IH]; simpl; intros Hs tok quoted toks.
  - rewrite string_app_nil_r. reflexivity.
  - apply andb_true_iff in Hs as [Hc Hs].
    apply plain_char_inv in Hc as (Hw & Hq & He). rewrite Hw, Hq, He.
    rewrite (IH Hs). unfold push. rewrite <- string_app_assoc. reflexivity.
Qed.

(** Between words, a plain word starts a token and makes it up. *)
Lemma lex_run_word (w : string) (toks : list string) :
  plain_word w = true →
  lex_run w (Lexer InWhite EmptyString false toks) = Lexer InWord w false toks.
Proof.
  unfold plain_word. destruct w as [|c s]; [discriminate|]. simpl.
  intros Hs. apply andb_true_iff in Hs as [Hc Hs].
  apply plain_char_inv in Hc as (Hw & Hq & He). rewrite Hw, Hq, He.
  rewrite (lex_run_plain s Hs). reflexivity.
Qed.

(** A space after a text that [shlex.split] accepts: the tokens of the text
    have been returned and the automaton is between words. *)
Lemma lex_run_then_space (pre : string) (toks : list string) :
  shlex_split pre = Ok toks →
  lex_run (pre +:+ " ") lex_init = Lexer InWhite EmptyString false toks.
Proof.
  unfold shlex_split, lex_eof. rewrite lex_run_app. simpl.
  destruct (lex_run pre lex_init) as [st tok quoted tl].
  destruct st; simpl; try discriminate; unfold emit; simpl;
    destruct (negb (String.eqb tok EmptyString) || quoted) eqn:E; simpl;
    intros [= <-]; try reflexivity;
    apply orb_false_iff in E as [E1 ->]; apply negb_false_iff, String.eqb_eq in E1;
    subst tok; reflexivity.
Qed.

(** Inside single quotes, every character but the single quote is taken as
    it is, up to the closing quote. *)
Lemma lex_run_single_quoted (body : string) :
  no_single_quote body = true →
  ∀ tok quoted toks,
    lex_run (body +:+ "'") (Lexer (InQuote "'") tok quoted toks) =
    Lexer InWord (tok +:+ body) true toks.
Proof.
  induction body as [|c body IH]; intros Hb tok quoted toks.
  - simpl. rewrite string_app_nil_r. reflexivity.
  - simpl in Hb. apply andb_true_iff in Hb as [Hc Hb]. apply negb_true_iff in Hc.
    rewrite string_app_cons. simpl. rewrite Hc.
    rewrite andb_false_r.
    rewrite (IH Hb). unfold push. rewrite <- string_app_assoc. reflexivity.
Qed.

(** One more plain word after a space. *)
Lemma shlex_split_snoc_word (pre w : string) (toks : list string) :
  shlex_split pre = Ok toks →
  plain_word w = true →
  shlex_split (pre +:+ " " +:+ w) = Ok (toks ++ [w])%list.
Proof.
  intros Hpre Hw. unfold shlex_split.
  rewrite string_app_assoc, lex_run_app, (lex_run_then_space pre toks Hpre).
  rewrite (lex_run_word w toks Hw). unfold lex_eof, emit. simpl.
  unfold plain_word in Hw. apply andb_true_iff in Hw as [Hw _]. rewrite Hw. reflexivity.
Qed.

(** One more word in single quotes after a space. *)
Lemma shlex_split_snoc_quoted (pre body : string) (toks : list string) :
  shlex_split pre = Ok toks →
  no_single_quote body = true →
  shlex_split (pre +:+ " '" +:+ body +:+ "'") = Ok (toks ++ [body])%list.
Proof.
  intros Hpre Hb. unfold shlex_split.
  change (" '" +:+ body +:+ "'") with (" " +:+ String "'" (body +:+ "'")).
  rewrite string_app_assoc, lex_run_app, (lex_run_then_space pre toks Hpre).
  simpl. rewrite (lex_run_single_quoted body Hb). unfold lex_eof, emit. simpl.
  rewrite orb_true_r. reflexivity.
Qed.

Lemma join_snoc (ws : list string) (w0 w : string) :
  join " " ((w0 :: ws) ++ [w])%list = join " " (w0 :: ws) +:+ " " +:+ w.
Proof.
  unfold join. revert w0. induction ws as [|w1 ws IH]; intros w0.
  - reflexivity.
  - change (String.concat " " ((w0 :: w1 :: ws) ++ [w])%list)
      with (w0 +:+ " " +:+ String.concat " " ((w1 :: ws) ++ [w])%list).
    rewrite IH.
    change (String.concat " " (w0 :: w1 :: ws))
      with (w0 +:+ " " +:+ String.concat " " (w1 :: ws)).
    rewrite <- !string_app_assoc. reflexivity.
Qed.

Lemma shlex_split_words (ws : list string) :
  Forall (λ w, plain_word w = true) ws →
  shlex_split (join " " ws) = Ok ws.
Proof.
  induction ws as [|w ws IH] using rev_ind; intros Hws.
  - reflexivity.
  - apply Forall_app in Hws as [Hws Hw]. rewrite Forall_singleton in Hw. simpl in Hw.
    destruct ws as [|w0 ws].
    + simpl. unfold shlex_split, lex_init, join. simpl.
      rewrite (lex_run_word w [] Hw). unfold lex_eof, emit. simpl.
      unfold plain_word in Hw. apply andb_true_iff in Hw as [Hw _]. rewrite Hw. reflexivity.
    + rewrite join_snoc. apply shlex_split_snoc_word; auto.
Qed.

Lemma operators_are_plain (op : string) :
  op ∈ REDIRECTION_OPERATORS → plain_word op = true ∧ no_single_quote op = true.
Proof.
  unfold REDIRECTION_OPERATORS. intros Hop.
  repeat (apply elem_of_cons in Hop as [->|Hop]); try (split; reflexivity).
  apply elem_of_nil in Hop. contradiction.
Qed.

Section Builtin_stream_facts.
Context `{os : OS}.
Variable PROGRAMS_IN_PATH : gmap string string.

Lemma all_closed_printed (s : string) (w : World) : all_closed w → all_closed (printed s w).
Proof. intros H. exact H. Qed.

(** The builtins are given [err] and do not use it. *)
Lemma handle_all_builtin_err (cmds0 : list string) (out err err' : TextIO) :
  builtin_form cmds0 = true →
  handle_all PROGRAMS_IN_PATH cmds0 out err = handle_all PROGRAMS_IN_PATH cmds0 out err'.
Proof.
  destruct cmds0 as [|c s]; [discriminate|].
  unfold builtin_form, handle_all. intros Hform.
  destruct (String.eqb c "echo"); [reflexivity|].
  destruct s as [|a [|b s']].
  - destruct (String.eqb c "pwd"); [reflexivity|].
    destruct (String.eqb c "type"), (String.eqb c "exit"), (String.eqb c "cd");
      vm_compute in Hform; discriminate.
  - destruct (String.eqb c "type"); [reflexivity|].
    destruct (String.eqb c "exit" && String.eqb a "0") eqn:Eexit; [reflexivity|].
    destruct (String.eqb c "cd"); [reflexivity|].
    exfalso. simpl in Hform. rewrite !andb_false_r, !orb_false_r in Hform.
    apply andb_true_iff in Hform as [Hc Ha]. apply bool_decide_eq_true in Ha.
    injection Ha as ->. rewrite Hc in Eexit. discriminate.
  - exfalso. simpl in Hform.
    destruct (String.eqb c "type"), (String.eqb c "exit"), (String.eqb c "pwd"),
      (String.eqb c "cd");
      simpl in Hform; rewrite ?bool_decide_eq_false_2 in Hform by (simpl; lia || congruence);
      simpl in Hform; discriminate.
Qed.

End Builtin_stream_facts.

Section Session_properties.
Context `{os : OS}.
Variable PROGRAMS_IN_PATH : gmap string string.

(** X18.  A whole session leaves no file object open: when every file
    object is closed at the start and no line holds more than one operator
    for the output ([>], [1>], [>>], [1>>]) or more than one for the error
    stream ([2>], [2>>]), every file object is closed when [main] ends,
    whichever exception ends it. *)
Theorem session_leaves_no_file_open
    (stdin : list string) (w w' : World) (r : result Empty_set) :
  Forall (λ line, ∀ cmds0, shlex_split line = Ok cmds0 →
            (out_operators cmds0 ≤ 1)%nat ∧ (err_operators cmds0 ≤ 1)%nat) stdin →
  all_closed w →
  main PROGRAMS_IN_PATH stdin w = (r, w') →
  all_closed w'.
Proof.
  revert w. induction stdin as [|line stdin IH]; intros w Hlines Hclosed.
  - rewrite main_nil. intros [= _ <-]. apply all_closed_printed. exact Hclosed.
  - apply Forall_cons in Hlines as [Hline Hlines].
    rewrite main_cons.
    destruct (handle_line PROGRAMS_IN_PATH line (printed "$ " w)) as [[[]|e] w1] eqn:Hturn.
    + apply IH; [exact Hlines|].
      eapply files_closed_after_turn; [exact Hline| |exact Hturn].
      apply all_closed_printed. exact Hclosed.
    + intros [= _ <-].
      eapply files_closed_after_turn; [exact Hline| |exact Hturn].
      apply all_closed_printed. exact Hclosed.
Qed.

(** X19.  [echo] gives plain words back: on a line made of [echo] and
    words without white space, quotes or backslashes, joined by single
    spaces, none of them a redirection operator, the shell prints just
    these words, separated by single spaces, and a newline. *)
Theorem echo_prints_plain_words (ws : list string) (w : World) :
  Forall (λ x, plain_word x = true) ws →
  Forall (λ op, op ∉ ws) REDIRECTION_OPERATORS →
  handle_line PROGRAMS_IN_PATH (join " " ("echo" :: ws)) w =
    (Ok tt, printed (join " " ws +:+ nl) w).
Proof.
  intros Hws Hops.
  rewrite (handle_line_plain PROGRAMS_IN_PATH _ ("echo" :: ws)).
  - reflexivity.
  - apply shlex_split_words. constructor; [reflexivity|exact Hws].
  - rewrite Forall_forall in Hops |- *. intros op Hop.
    rewrite not_elem_of_cons. split; [|apply Hops; exact Hop].
    intros ->. revert Hop. apply (bool_decide_unpack _). vm_compute. exact I.
Qed.

(** X20.  A text in single quotes is one token, taken literally: [echo]
    prints it with its white space, double quotes and backslashes as they
    are (an empty quotation prints an empty line), unless the text is
    itself one of the operator tokens. *)
Theorem echo_prints_quoted_text_literally (body : string) (w : World) :
  no_single_quote body = true →
  body ∉ REDIRECTION_OPERATORS →
  handle_line PROGRAMS_IN_PATH ("echo" +:+ " '" +:+ body +:+ "'") w =
    (Ok tt, printed (body +:+ nl) w).
Proof.
  intros Hbody Hop.
  rewrite (handle_line_plain PROGRAMS_IN_PATH _ ["echo"; body]).
  - reflexivity.
  - apply (shlex_split_snoc_quoted "echo" body ["echo"]); [reflexivity|exact Hbody].
  - rewrite Forall_forall. intros op Hin. rewrite !not_elem_of_cons.
    split; [|split; [congruence|apply not_elem_of_nil]].
    intros ->. revert Hin. apply (bool_decide_unpack _). vm_compute. exact I.
Qed.

(** X21.  Quoting does not protect a redirection operator: [main] looks
    for the operators among the tokens, where a quoted [>] is the same token
    as a bare one, so a line with the operator in single quotes is handled
    as the line with the bare operator. *)
Theorem quoted_operator_still_redirects
    (pre op name : string) (toks : list string) (w : World) :
  shlex_split pre = Ok toks →
  op ∈ REDIRECTION_OPERATORS →
  plain_word name = true →
  handle_line PROGRAMS_IN_PATH ((pre +:+ " '" +:+ op +:+ "'") +:+ " " +:+ name) w =
  handle_line PROGRAMS_IN_PATH ((pre +:+ " " +:+ op) +:+ " " +:+ name) w.
Proof.
  intros Hpre Hop Hname.
  destruct (operators_are_plain op Hop) as [Hplain Hquote].
  pose proof (shlex_split_snoc_word _ name _
                (shlex_split_snoc_quoted pre op toks Hpre Hquote) Hname) as H1.
  pose proof (shlex_split_snoc_word _ name _
                (shlex_split_snoc_word pre op toks Hpre Hplain) Hname) as H2.
  rewrite (handle_line_split_ok _ _ _ _ H1), (handle_line_split_ok _ _ _ _ H2).
  reflexivity.
Qed.

(** X22.  Only a program of the path is given the error stream: the
    builtins and the [command not found] answer write to the output stream
    alone, so that what they do is the same whatever [err] is. *)
Theorem error_stream_is_for_programs_only
    (cmds0 : list string) (out err err' : TextIO) :
  builtin_form cmds0 = true ∨ (∀ c s, cmds0 = c :: s → PROGRAMS_IN_PATH !! c = None) →
  handle_all PROGRAMS_IN_PATH cmds0 out err = handle_all PROGRAMS_IN_PATH cmds0 out err'.
Proof.
  intros H.
  destruct (builtin_form cmds0) eqn:Hform; [apply handle_all_builtin_err; exact Hform|].
  destruct H as [H|H]; [discriminate|].
  destruct cmds0 as [|c s]; [reflexivity|].
  rewrite !(handle_all_fallthrough _ _ _ _ _ Hform).
  rewrite !(external_or_unknown_missing _ _ _ _ _ (H c s eq_refl)). reflexivity.
Qed.

(** X23.  [cd] checks that the path exists, not that it is a directory
    that may be entered: when the path exists and [os.chdir] refuses it (a
    regular file, a directory without search permission), the [OSError] is
    not caught and ends the loop; nothing is written but the prompt. *)
Theorem cd_refused_ends_the_loop
    (line path : string) (stdin : list string) (w : World) (e : oserror) :
  shlex_split line = Ok ["cd"; path] →
  path ∉ REDIRECTION_OPERATORS →
  startswith "~" path = false →
  os_exists (w_fs w) (w_cwd w) path = true →
  os_chdir (w_fs w) (w_cwd w) path = inl e →
  main PROGRAMS_IN_PATH (line :: stdin) w = (Raise (OSError e), printed "$ " w).
Proof.
  intros Hsplit Hpath Htilde Hexists Hchdir.
  rewrite main_cons, (handle_line_plain _ _ _ _ Hsplit).
  - unfold handle_all. simpl. rewrite cd_run, Htilde. unfold cd_to. simpl.
    rewrite Hexists. simpl. unfold chdir. simpl. rewrite Hchdir. reflexivity.
  - rewrite Forall_forall. intros op Hop. rewrite !not_elem_of_cons.
    split; [|split; [congruence|apply not_elem_of_nil]].
    intros ->. revert Hop. apply (bool_decide_unpack _). vm_compute. exact I.
Qed.

(** X24.  [pwd] after a [cd] that went through prints the directory that
    [os.chdir] entered, on a line of its own after the two prompts, and the
    loop goes on from there. *)
Theorem cd_then_pwd
    (line1 line2 path d : string) (stdin : list string) (w : World) :
  shlex_split line1 = Ok ["cd"; path] →
  shlex_split line2 = Ok ["pwd"] →
  path ∉ REDIRECTION_OPERATORS →
  startswith "~" path = false →
  os_exists (w_fs w) (w_cwd w) path = true →
  os_chdir (w_fs w) (w_cwd w) path = inr d →
  main PROGRAMS_IN_PATH (line1 :: line2 :: stdin) w =
    main PROGRAMS_IN_PATH stdin
      (printed (d +:+ nl) (printed "$ " (set_cwd d (printed "$ " w)))).
Proof.
  intros Hsplit1 Hsplit2 Hpath Htilde Hexists Hchdir.
  assert (handle_line PROGRAMS_IN_PATH line1 (printed "$ " w) =
            (Ok tt, set_cwd d (printed "$ " w))) as H1.
  { rewrite (handle_line_plain _ _ _ _ Hsplit1).
    - unfold handle_all. simpl. rewrite cd_run, Htilde. unfold cd_to. simpl.
      rewrite Hexists. simpl. unfold chdir. simpl. rewrite Hchdir. reflexivity.
    - rewrite Forall_forall. intros op Hop. rewrite !not_elem_of_cons.
      split; [|split; [congruence|apply not_elem_of_nil]].
      intros ->. revert Hop. apply (bool_decide_unpack _). vm_compute. exact I. }
  assert (∀ w0, handle_line PROGRAMS_IN_PATH line2 w0 =
                (Ok tt, printed (w_cwd w0 +:+ nl) w0)) as H2.
  { intros w0. rewrite (handle_line_plain _ _ _ _ Hsplit2); [reflexivity|].
    apply (bool_decide_unpack _). vm_compute. exact I. }
  rewrite main_cons, H1, main_cons, H2. reflexivity.
Qed.

End Session_properties.

(** X18 on a session of two lines with redirections, the second of which
    ends it. *)
Lemma session_leaves_no_file_open_witness :
  all_closed (main (os := Toy.toy_os) Toy.programs
                ["echo a > /tmp/x 2> /tmp/y"; "exit 0 >> /tmp/x"] Toy.world0).2
  ∧ List.length (w_files (main (os := Toy.toy_os) Toy.programs
                ["echo a > /tmp/x 2> /tmp/y"; "exit 0 >> /tmp/x"] Toy.world0).2) = 3.
Proof.
  split; [|reflexivity].
  apply (session_leaves_no_file_open (os := Toy.toy_os) Toy.programs
           ["echo a > /tmp/x 2> /tmp/y"; "exit 0 >> /tmp/x"] Toy.world0 _
           (main (os := Toy.toy_os) Toy.programs
              ["echo a > /tmp/x 2> /tmp/y"; "exit 0 >> /tmp/x"] Toy.world0).1).
  - apply List.Forall_cons; [|apply List.Forall_cons; [|apply List.Forall_nil]];
      intros cmds0 H; vm_compute in H; injection H as <-; split; vm_compute; lia.
  - constructor.
  - apply surjective_pairing.
Defined.

(** X19 on the line [echo hello world]. *)
Lemma echo_prints_plain_words_witness :
  handle_line (os := Toy.toy_os) Toy.programs "echo hello world" Toy.world0 =
    (Ok tt, printed ("hello world" +:+ nl) Toy.world0).
Proof.
  apply (echo_prints_plain_words (os := Toy.toy_os) Toy.programs ["hello"; "world"]
           Toy.world0).
  - repeat constructor.
  - apply (bool_decide_unpack _). vm_compute. exact I.
Defined.

(** X20 on a text with two spaces, an operator character and a
    backslash. *)
Lemma echo_prints_quoted_text_literally_witness :
  handle_line (os := Toy.toy_os) Toy.programs "echo 'a  > \ b'" Toy.world0 =
    (Ok tt, printed ("a  > \ b" +:+ nl) Toy.world0).
Proof.
  apply (echo_prints_quoted_text_literally (os := Toy.toy_os) Toy.programs "a  > \ b"
           Toy.world0).
  - reflexivity.
  - apply (bool_decide_unpack _). vm_compute. exact I.
Defined.

(** X21 on the line [echo hi '>' /tmp/q]: the file is created and receives
    the text. *)
Lemma quoted_operator_still_redirects_witness :
  handle_line (os := Toy.toy_os) Toy.programs "echo hi '>' /tmp/q" Toy.world0 =
    (Ok tt,
     mkWorld (os := Toy.toy_os) (("/tmp/q", Toy.Reg false) :: Toy.disk) "/home/u"
       Toy.environ EmptyString EmptyString [File "/tmp/q" ModeW ("hi" +:+ nl) true]).
Proof.
  etransitivity.
  - apply (quoted_operator_still_redirects (os := Toy.toy_os) Toy.programs "echo hi" ">"
             "/tmp/q" ["echo"; "hi"] Toy.world0).
    + reflexivity.
    + apply (bool_decide_unpack _). vm_compute. exact I.
    + reflexivity.
  - vm_compute. reflexivity.
Defined.

(** X22 on [cd /nowhere], with the error stream of the shell and with a
    file object. *)
Lemma error_stream_is_for_programs_only_witness :
  handle_all (os := Toy.toy_os) Toy.programs ["cd"; "/nowhere"] sys_stdout sys_stderr =
  handle_all (os := Toy.toy_os) Toy.programs ["cd"; "/nowhere"] sys_stdout (file_object 0).
Proof.
  apply (error_stream_is_for_programs_only (os := Toy.toy_os) Toy.programs
           ["cd"; "/nowhere"] sys_stdout sys_stderr (file_object 0)).
  left. reflexivity.
Defined.

(** X23 on the line [cd /bin/ls], a regular file. *)
Lemma cd_refused_ends_the_loop_witness :
  main (os := Toy.toy_os) Toy.programs ["cd /bin/ls"; "pwd"] Toy.world0 =
    (Raise (OSError NotADirectoryError), printed "$ " Toy.world0).
Proof.
  apply (cd_refused_ends_the_loop (os := Toy.toy_os) Toy.programs "cd /bin/ls" "/bin/ls"
           ["pwd"] Toy.world0 NotADirectoryError).
  - vm_compute. reflexivity.
  - apply (bool_decide_unpack _). vm_compute. exact I.
  - reflexivity.
  - vm_compute. reflexivity.
  - vm_compute. reflexivity.
Defined.

(** X24 on the lines [cd /tmp] and [pwd], after which the input ends. *)
Lemma cd_then_pwd_witness :
  w_stdout (main (os := Toy.toy_os) Toy.programs ["cd /tmp"; "pwd"] Toy.world0).2 =
    "$ $ /tmp" +:+ nl +:+ "$ "
  ∧ w_cwd (main (os := Toy.toy_os) Toy.programs ["cd /tmp"; "pwd"] Toy.world0).2 = "/tmp".
Proof.
  rewrite (cd_then_pwd (os := Toy.toy_os) Toy.programs "cd /tmp" "pwd" "/tmp" "/tmp" []
             Toy.world0).
  - split; reflexivity.
  - vm_compute. reflexivity.
  - vm_compute. reflexivity.
  - apply (bool_decide_unpack _). vm_compute. exact I.
  - reflexivity.
  - vm_compute. reflexivity.
  - vm_compute. reflexivity.
Defined.
